(** * go-toggl: the resource cache and the time-entry lifecycle

    A shallow embedding of the two stateful parts of the library:
    - package [cache] (the [ResourcesCache] with its per-kind expiry sweep
      and hit/miss statistics);
    - the [TimeEntry] value of package [toggl] with its tag, copy and
      start/stop/duration mutators, and the operations of a [Session] that
      start, continue and unstop an entry;
    - the URLs of package [resource].

    Go values are modelled as the code has them: [int]/[int64] as [Z] with
    the wrap-around written where the code does arithmetic, Go maps as
    [gmap] (an absent key reads as the nil/zero value), pointers as indices
    into an explicit store, a run-time panic as a dedicated outcome. *)

From Stdlib Require Import ZArith Lia.
From stdpp Require Import gmap strings list fin_maps pretty.

Local Open Scope Z_scope.

(** ** Machine integers *)

Definition min_int64 : Z := - 2 ^ 63.
Definition max_int64 : Z := 2 ^ 63 - 1.

Definition in_int64 (z : Z) : Prop := min_int64 <= z <= max_int64.

(** Two's complement wrap-around of a 64-bit signed result. *)
Definition wrap64 (z : Z) : Z := (z + 2 ^ 63) mod 2 ^ 64 - 2 ^ 63.

(** Saturation, as [time.Time.Sub] documents it. *)
Definition sat64 (z : Z) : Z := Z.max min_int64 (Z.min max_int64 z).

(** ** Package [time] (the part the library uses)

    An instant is its number of nanoseconds since the Unix epoch; a
    [Duration] is an [int64] count of nanoseconds. *)
Module time.

Abbreviation Time := Z (only parsing).
Abbreviation Duration := Z (only parsing).

Definition Second : Duration := 1000000000.
Definition Minute : Duration := 60 * Second.

(** [t.Add(d)] *)
Definition Add (t : Time) (d : Duration) : Time := t + d.

(** [t.Sub(u)]: the difference, clamped to the range of a [Duration]. *)
Definition Sub (t u : Time) : Duration := sat64 (t - u).

(** [time.Since(t)], with the clock reading passed in. *)
Definition Since (now t : Time) : Duration := Sub now t.

(** [t.Unix()]: whole seconds since the epoch, rounded down. *)
Definition Unix (t : Time) : Z := t / Second.

(** [time.Time{}], January 1 of year 1. *)
Definition zero : Time := -62135596800 * Second.

End time.

(** ** Package [resource] *)
Module resource.

(** [type Type int] *)
Definition Clients : Z := 0.
Definition Projects : Z := 1.
Definition Tags : Z := 2.
Definition TimeEntries : Z := 3.

Definition TypeMap : gmap Z string :=
  <[Clients := "clients"]>
    (<[Projects := "projects"]>
       (<[Tags := "tags"]>
          (<[TimeEntries := "time_entries"]> ∅))).

(** [r.String()]: the name of the kind, the empty string for a number
    that is no kind. *)
Definition String_ (r : Z) : string := default ""%string (TypeMap !! r).

(** [fmt.Sprintf("/me/%s", Type)] *)
Definition GenerateUserResourceURL (t : Z) : string :=
  "/me/" +:+ String_ t.

(** [fmt.Sprintf("/workspaces/%d/"+Type.String(), wid)]; [%d] prints the
    integer in decimal, which is what [pretty] does. *)
Definition GenerateResourceURL (t wid : Z) : string :=
  "/workspaces/" +:+ pretty wid +:+ "/" +:+ String_ t.

Definition GenerateResourceURLWithID (t wid id : Z) : string :=
  GenerateResourceURL t wid +:+ "/" +:+ pretty id.

(** The character [/]. *)
Definition slash : Ascii.ascii :=
  Ascii.Ascii true true true true false true false false.

(** The character [c] does not occur in [s]. *)
Fixpoint free_of (c : Ascii.ascii) (s : string) : bool :=
  match s with
  | EmptyString => true
  | String c' s' => negb (Ascii.eqb c' c) && free_of c s'
  end.

End resource.

(** ** Package [cache] *)
Module cache.

Definition hits : Z := 0.
Definition misses : Z := 1.

Section ResourcesCache.

(** The payload of the [any] values the cache holds: an [any] is an
    [option V], the nil interface being [None]. *)
Context {V : Type}.

(** The mutex is left out: every operation here is one sequential
    step. The clock reading is an argument of the operations that call
    [time.Now]. *)
Record ResourcesCache : Type := mkCache {
  caches : gmap Z (gmap Z (gmap Z (option V)));
  timestamp : gmap Z Z;
  stats : gmap Z (gmap Z Z);
  ttl : Z
}.

Definition with_caches (f : gmap Z (gmap Z (gmap Z (option V))) →
                            gmap Z (gmap Z (gmap Z (option V))))
    (c : ResourcesCache) : ResourcesCache :=
  {| caches := f (caches c); timestamp := timestamp c;
     stats := stats c; ttl := ttl c |}.

Definition with_timestamp (f : gmap Z Z → gmap Z Z)
    (c : ResourcesCache) : ResourcesCache :=
  {| caches := caches c; timestamp := f (timestamp c);
     stats := stats c; ttl := ttl c |}.

Definition with_stats (f : gmap Z (gmap Z Z) → gmap Z (gmap Z Z))
    (c : ResourcesCache) : ResourcesCache :=
  {| caches := caches c; timestamp := timestamp c;
     stats := f (stats c); ttl := ttl c |}.

Definition with_ttl (t : Z) (c : ResourcesCache) : ResourcesCache :=
  {| caches := caches c; timestamp := timestamp c;
     stats := stats c; ttl := t |}.

(** [c.caches[rt] = make(map[int]map[int]any)] *)
Definition Clear (rt : Z) (c : ResourcesCache) : ResourcesCache :=
  with_caches (insert rt ∅) c.

(** The body of the loop of [expireCacheIf] for one [rt, ts]. *)
Definition expire_step (now : Z) (rt ts : Z) (c : ResourcesCache)
    : ResourcesCache :=
  if ttl c <? time.Since now ts then
    with_timestamp (insert rt now) (with_caches (insert rt ∅) c)
  else c.

Definition expireCacheIf (now : Z) (c : ResourcesCache) : ResourcesCache :=
  map_fold (expire_step now) c (timestamp c).

(** [c.stats[rt][k]++]. Writing into [c.stats[rt]] when that inner map
    is nil panics ([None]); a missing counter reads as 0. *)
Definition incr (k rt : Z) (c : ResourcesCache) : option ResourcesCache :=
  match stats c !! rt with
  | None => None
  | Some s =>
      Some (with_stats
              (insert rt (<[k := wrap64 (default 0 (s !! k) + 1)]> s)) c)
  end.

Definition Get (now : Z) (rt wid id : Z) (c : ResourcesCache)
    : option (option V * bool * ResourcesCache) :=
  let c := expireCacheIf now c in
  match caches c !! rt with
  | None => c' ← incr misses rt c; Some (None, false, c')
  | Some ws =>
      match ws !! wid with
      | None => c' ← incr misses rt c; Some (None, false, c')
      | Some es =>
          let '(data, ok) :=
            match es !! id with
            | Some v => (v, true)
            | None => (None, false)
            end in
          c' ← incr hits rt c; Some (data, ok, c')
      end
  end.

(** The returned map is nil ([None]) on a miss. *)
Definition GetMap (now : Z) (rt wid : Z) (c : ResourcesCache)
    : option (option (gmap Z (option V)) * bool * ResourcesCache) :=
  let c := expireCacheIf now c in
  match caches c !! rt with
  | None => c' ← incr misses rt c; Some (None, false, c')
  | Some ws =>
      match ws !! wid with
      | None => c' ← incr misses rt c; Some (None, false, c')
      | Some es => c' ← incr hits rt c; Some (Some es, true, c')
      end
  end.

(** The values are listed in the order the map enumerates them. *)
Definition GetList (now : Z) (rt wid : Z) (c : ResourcesCache)
    : option (list (option V) * bool * ResourcesCache) :=
  let c := expireCacheIf now c in
  match caches c !! rt with
  | None => c' ← incr misses rt c; Some ([], false, c')
  | Some ws =>
      match ws !! wid with
      | None => c' ← incr misses rt c; Some ([], false, c')
      | Some es =>
          let list := (map_to_list es).*2 in
          c' ← incr hits rt c; Some (list, true, c')
      end
  end.

Definition Set_ (rt wid id : Z) (data : option V) (c : ResourcesCache)
    : ResourcesCache :=
  let c1 :=
    match caches c !! rt with
    | None => with_caches (insert rt ∅) c
    | Some _ => c
    end in
  let ws := default ∅ (caches c1 !! rt) in
  let c2 :=
    match ws !! wid with
    | None => with_caches (insert rt (<[wid := ∅]> ws)) c1
    | Some _ => c1
    end in
  let ws := default ∅ (caches c2 !! rt) in
  let es := default ∅ (ws !! wid) in
  with_caches (insert rt (<[wid := <[id := data]> es]> ws)) c2.

(** What the sweep decides for one kind: it has a timestamp and its age
    is over the TTL. *)
Definition expired (now : Z) (rt : Z) (c : ResourcesCache) : bool :=
  match timestamp c !! rt with
  | Some ts => ttl c <? time.Since now ts
  | None => false
  end.

Definition GetTTL (c : ResourcesCache) : Z := ttl c.

Definition SetTTL (now : Z) (t : Z) (c : ResourcesCache) : ResourcesCache :=
  expireCacheIf now (with_ttl t c).

Definition Stats (rt : Z) (c : ResourcesCache) : Z * Z * Z :=
  let s := default ∅ (stats c !! rt) in
  (Z.of_nat (size (default ∅ (caches c !! rt))),
   default 0 (s !! hits), default 0 (s !! misses)).

(** The body of the loop of [New] for one kind. *)
Definition New_step (now : Z) (rt : Z) (_ : string) (r : ResourcesCache)
    : ResourcesCache :=
  Clear rt (with_stats (insert rt ∅) (with_timestamp (insert rt now) r)).

Definition New (now : Z) (t : Z) : ResourcesCache :=
  let t := if t =? 0 then 5 * time.Minute else t in
  map_fold (New_step now)
    {| caches := ∅; timestamp := ∅; stats := ∅; ttl := t |}
    resource.TypeMap.

(** A counter of one kind, as [Stats] reads it. *)
Definition counter (k rt : Z) (c : ResourcesCache) : Z :=
  default 0 (default ∅ (stats c !! rt) !! k).

(** The entity the cache holds for a kind, a workspace and an id, as the
    chain of lookups [c.caches[rt][wid][id]] finds it. *)
Definition entity (rt wid id : Z) (c : ResourcesCache)
    : option (option V) :=
  ws ← caches c !! rt; es ← ws !! wid; es !! id.

(** *** Sequences of cache calls *)
Inductive op : Type :=
  | OpGet (now rt wid id : Z)
  | OpGetMap (now rt wid : Z)
  | OpGetList (now rt wid : Z)
  | OpSet (rt wid id : Z) (data : option V)
  | OpClear (rt : Z)
  | OpSetTTL (now t : Z).

(** The cache after one call, its results dropped; [None] is a panic. *)
Definition exec (o : op) (c : ResourcesCache) : option ResourcesCache :=
  match o with
  | OpGet now rt wid id => r ← Get now rt wid id c; Some r.2
  | OpGetMap now rt wid => r ← GetMap now rt wid c; Some r.2
  | OpGetList now rt wid => r ← GetList now rt wid c; Some r.2
  | OpSet rt wid id data => Some (Set_ rt wid id data c)
  | OpClear rt => Some (Clear rt c)
  | OpSetTTL now t => Some (SetTTL now t c)
  end.

Fixpoint exec_all (os : list op) (c : ResourcesCache)
    : option ResourcesCache :=
  match os with
  | [] => Some c
  | o :: os' => c' ← exec o c; exec_all os' c'
  end.

(** The kind a call reads, if it is a read. *)
Definition read_kind (o : op) : option Z :=
  match o with
  | OpGet _ rt _ _ | OpGetMap _ rt _ | OpGetList _ rt _ => Some rt
  | _ => None
  end.

(** The number of reads of kind [rt] among [os]. *)
Definition reads (rt : Z) (os : list op) : nat :=
  length (filter (λ o, read_kind o = Some rt) os).

End ResourcesCache.

Arguments ResourcesCache V : clear implicits.
Arguments op V : clear implicits.

End cache.

(** ** Package [toggl]: the time entry *)
Module toggl.

(** *** The store behind pointers and slices

    A [*time.Time] is nil ([None]) or the index of a cell of [times]; the
    backing array of a [[]string] is an entry of [arrays]. Cells are only
    ever added at the end, so an index, once valid, stays valid. *)
Record store : Type := mkStore {
  times : list Z;
  arrays : list (list string)
}.

Definition with_times (f : list Z → list Z) (st : store) : store :=
  {| times := f (times st); arrays := arrays st |}.

Definition with_arrays (f : list (list string) → list (list string))
    (st : store) : store :=
  {| times := times st; arrays := f (arrays st) |}.

(** [*p]; dereferencing nil panics ([None]). *)
Definition deref (st : store) (p : option nat) : option Z :=
  match p with
  | Some l => times st !! l
  | None => None
  end.

(** [&v] for a local [v] that escapes: a new cell. *)
Definition new_time (v : Z) (st : store) : nat * store :=
  (length (times st), with_times (λ ts, ts ++ [v]) st).

(** [*p = v] for a non-nil [p]. *)
Definition write_time (l : nat) (v : Z) (st : store) : store :=
  with_times (insert l v) st.

(** A slice header: pointer to the backing array (nil for the nil slice),
    offset of the first element in it, length and capacity. *)
Record slice : Type := mkSlice {
  s_ptr : option nat;
  s_off : nat;
  s_len : nat;
  s_cap : nat
}.

Definition nil_slice : slice :=
  {| s_ptr := None; s_off := 0; s_len := 0; s_cap := 0 |}.

Definition array_of (st : store) (s : slice) : list string :=
  match s_ptr s with
  | Some a => default [] (arrays st !! a)
  | None => []
  end.

(** The elements of a slice, in order. *)
Definition slice_val (st : store) (s : slice) : list string :=
  take (s_len s) (drop (s_off s) (array_of st s)).

(** What holds of every slice the runtime hands out: the length is within
    the capacity and the capacity within the backing array. *)
Definition wf_slice (st : store) (s : slice) : Prop :=
  (s_len s ≤ s_cap s)%nat ∧
  (s_off s + s_cap s ≤ length (array_of st s))%nat.

(** Overwrite the cells of array [a] from position [pos] on with [vs]. *)
Definition write_array (a : option nat) (pos : nat) (vs : list string)
    (st : store) : store :=
  match a with
  | Some a =>
      with_arrays
        (alter (λ old, take pos old ++ vs ++ drop (pos + length vs) old) a) st
  | None => st
  end.

(** [make([]string, n)] *)
Definition make_strings (n : nat) (st : store) : slice * store :=
  ({| s_ptr := Some (length (arrays st)); s_off := 0;
      s_len := n; s_cap := n |},
   with_arrays (λ l, l ++ [replicate n ""%string]) st).

(** [copy(dst, src)]: the source elements are read before any is written. *)
Definition copy_strings (dst src : slice) (st : store) : store :=
  let n := Nat.min (s_len dst) (s_len src) in
  write_array (s_ptr dst) (s_off dst) (take n (slice_val st src)) st.

(** [s[:j]] and [s[j:]]; out of range they panic ([None]). *)
Definition slice_to (s : slice) (j : nat) : option slice :=
  if (j <=? s_cap s)%nat then
    Some {| s_ptr := s_ptr s; s_off := s_off s;
            s_len := j; s_cap := s_cap s |}
  else None.

Definition slice_from (s : slice) (j : nat) : option slice :=
  if (j <=? s_len s)%nat then
    Some {| s_ptr := s_ptr s; s_off := (s_off s + j)%nat;
            s_len := (s_len s - j)%nat; s_cap := (s_cap s - j)%nat |}
  else None.

Section Append.

(** The capacity the runtime gives a slice that has to grow, from the old
    capacity and the length needed; the library does not depend on it. *)
Variable growslice : nat → nat → nat.

(** [append(s, vs...)]: in place when the capacity allows, else into a new
    array. *)
Definition append (s : slice) (vs : list string) (st : store)
    : slice * store :=
  let n := (s_len s + length vs)%nat in
  if (n <=? s_cap s)%nat then
    ({| s_ptr := s_ptr s; s_off := s_off s; s_len := n; s_cap := s_cap s |},
     write_array (s_ptr s) (s_off s + s_len s) vs st)
  else
    let newcap := growslice (s_cap s) n in
    ({| s_ptr := Some (length (arrays st)); s_off := 0;
        s_len := n; s_cap := newcap |},
     with_arrays
       (λ l, l ++ [slice_val st s ++ vs ++ replicate (newcap - n) ""%string])
       st).

End Append.

(** *** [TimeEntry]

    [Pid] and [Tid] stand for the integers they point to: nothing here
    writes through them. *)
Record TimeEntry : Type := mkTimeEntry {
  Wid : Z;
  ID : Z;
  Pid : option Z;
  Tid : option Z;
  Description : string;
  Stop : option nat;
  Start : option nat;
  Tags : slice;
  Duration : Z;
  DurOnly : bool;
  Billable : bool
}.

(** [TimeEntry{}] *)
Definition zero_TimeEntry : TimeEntry :=
  {| Wid := 0; ID := 0; Pid := None; Tid := None; Description := "";
     Stop := None; Start := None; Tags := nil_slice; Duration := 0;
     DurOnly := false; Billable := false |}.

Definition set_Stop (p : option nat) (e : TimeEntry) : TimeEntry :=
  {| Wid := Wid e; ID := ID e; Pid := Pid e; Tid := Tid e;
     Description := Description e; Stop := p; Start := Start e;
     Tags := Tags e; Duration := Duration e; DurOnly := DurOnly e;
     Billable := Billable e |}.

Definition set_Start (p : option nat) (e : TimeEntry) : TimeEntry :=
  {| Wid := Wid e; ID := ID e; Pid := Pid e; Tid := Tid e;
     Description := Description e; Stop := Stop e; Start := p;
     Tags := Tags e; Duration := Duration e; DurOnly := DurOnly e;
     Billable := Billable e |}.

Definition set_Tags (s : slice) (e : TimeEntry) : TimeEntry :=
  {| Wid := Wid e; ID := ID e; Pid := Pid e; Tid := Tid e;
     Description := Description e; Stop := Stop e; Start := Start e;
     Tags := s; Duration := Duration e; DurOnly := DurOnly e;
     Billable := Billable e |}.

Definition set_Duration (d : Z) (e : TimeEntry) : TimeEntry :=
  {| Wid := Wid e; ID := ID e; Pid := Pid e; Tid := Tid e;
     Description := Description e; Stop := Stop e; Start := Start e;
     Tags := Tags e; Duration := d; DurOnly := DurOnly e;
     Billable := Billable e |}.

Definition IsRunning (e : TimeEntry) : bool := Duration e <? 0.

(** [newEntry := *e] copies the fields, the two pointers among them; the
    assignments [*newEntry.Start = *e.Start] and [*newEntry.Stop = *e.Stop]
    then go through those pointers. *)
Definition Copy (e : TimeEntry) (st : store) : option (TimeEntry * store) :=
  let newEntry := e in
  let '(tags, st) := make_strings (s_len (Tags e)) st in
  let newEntry := set_Tags tags newEntry in
  let st := copy_strings (Tags newEntry) (Tags e) st in
  st ← match Start e, Start newEntry with
       | Some _, Some l => v ← deref st (Start e); Some (write_time l v st)
       | Some _, None => None
       | None, _ => Some st
       end;
  st ← match Stop e, Stop newEntry with
       | Some _, Some l => v ← deref st (Stop e); Some (write_time l v st)
       | Some _, None => None
       | None, _ => Some st
       end;
  Some (newEntry, st).

Definition StartTime (e : TimeEntry) (st : store) : Z :=
  match Start e with
  | Some l => default time.zero (times st !! l)
  | None => time.zero
  end.

Definition StopTime (e : TimeEntry) (st : store) : Z :=
  match Stop e with
  | Some l => default time.zero (times st !! l)
  | None => time.zero
  end.

(** The tag sequence of an entry. *)
Definition tags_of (e : TimeEntry) (st : store) : list string :=
  slice_val st (Tags e).

(** The index of the first [tag] among [tags], counted from [i]; -1 when
    there is none. *)
Fixpoint indexOfTag_from (i : Z) (tag : string) (tags : list string) : Z :=
  match tags with
  | [] => -1
  | t :: tags' =>
      if String.eqb t tag then i else indexOfTag_from (i + 1) tag tags'
  end.

Definition indexOfTag (tag : string) (tags : list string) : Z :=
  indexOfTag_from 0 tag tags.

Definition HasTag (tag : string) (e : TimeEntry) (st : store) : bool :=
  negb (indexOfTag tag (slice_val st (Tags e)) =? -1).

Definition AddTag (growslice : nat → nat → nat) (tag : string)
    (e : TimeEntry) (st : store) : TimeEntry * store :=
  if negb (HasTag tag e st) then
    let '(tags, st) := append growslice (Tags e) [tag] st in
    (set_Tags tags e, st)
  else (e, st).

Definition RemoveTag (growslice : nat → nat → nat) (tag : string)
    (e : TimeEntry) (st : store) : option (TimeEntry * store) :=
  let i := indexOfTag tag (slice_val st (Tags e)) in
  if negb (i =? -1) then
    front ← slice_to (Tags e) (Z.to_nat i);
    back ← slice_from (Tags e) (Z.to_nat (i + 1));
    let '(tags, st) := append growslice front (slice_val st back) st in
    Some (set_Tags tags e, st)
  else Some (e, st).

(** [time.Duration(d) * time.Second], an [int64] product. *)
Definition seconds (d : Z) : Z := wrap64 (d * time.Second).

(** The mutators return the error (nil is [None]) with the entry and the
    store as the call leaves them; [None] is a nil-pointer panic. *)
Definition SetDuration (duration : Z) (e : TimeEntry) (st : store)
    : option (option string * TimeEntry * store) :=
  if IsRunning e then Some (Some "TimeEntry must be stopped"%string, e, st)
  else
    let e := set_Duration duration e in
    start ← deref st (Start e);
    let newStop := time.Add start (seconds duration) in
    let '(p, st) := new_time newStop st in
    Some (None, set_Stop (Some p) e, st).

Definition SetStartTime (start : Z) (updateEnd : bool) (e : TimeEntry)
    (st : store) : option (TimeEntry * store) :=
  let '(p, st) := new_time start st in
  let e := set_Start (Some p) e in
  if negb (IsRunning e) then
    if updateEnd then
      let newStop := time.Add start (seconds (Duration e)) in
      let '(q, st) := new_time newStop st in
      Some (set_Stop (Some q) e, st)
    else
      stop ← deref st (Stop e);
      start' ← deref st (Start e);
      Some (set_Duration (wrap64 (time.Unix stop - time.Unix start')) e, st)
  else Some (e, st).

Definition SetStopTime (stop : Z) (e : TimeEntry) (st : store)
    : option (option string * TimeEntry * store) :=
  if IsRunning e then Some (Some "TimeEntry must be stopped"%string, e, st)
  else
    let '(p, st) := new_time stop st in
    let e := set_Stop (Some p) e in
    start ← deref st (Start e);
    Some (None,
          set_Duration (Z.quot (time.Sub stop start) time.Second) e, st).

(** The fields no lifecycle mutator touches. *)
Definition same_metadata (e e' : TimeEntry) : Prop :=
  Wid e' = Wid e ∧ ID e' = ID e ∧ Pid e' = Pid e ∧ Tid e' = Tid e ∧
  Description e' = Description e ∧ Tags e' = Tags e ∧
  DurOnly e' = DurOnly e ∧ Billable e' = Billable e.

(** *** Sequences of lifecycle calls *)
Inductive mutation : Type :=
  | CallSetStartTime (start : Z) (updateEnd : bool)
  | CallSetStopTime (stop : Z)
  | CallSetDuration (duration : Z).

Definition mutate (m : mutation) (e : TimeEntry) (st : store)
    : option (option string * TimeEntry * store) :=
  match m with
  | CallSetStartTime start updateEnd =>
      r ← SetStartTime start updateEnd e st; Some (None, r.1, r.2)
  | CallSetStopTime stop => SetStopTime stop e st
  | CallSetDuration duration => SetDuration duration e st
  end.

(** The entry and store after a sequence of calls that all succeed. *)
Fixpoint run (ms : list mutation) (e : TimeEntry) (st : store)
    : option (TimeEntry * store) :=
  match ms with
  | [] => Some (e, st)
  | m :: ms' =>
      match mutate m e st with
      | Some (None, e', st') => run ms' e' st'
      | _ => None
      end
  end.

(** Both instants of the entry are there. *)
Definition instants_present (e : TimeEntry) (st : store) : Prop :=
  is_Some (deref st (Start e)) ∧ is_Some (deref st (Stop e)).

(** The duration is the distance from start to stop in whole seconds:
    both instants are there and the duration, taken as seconds, is less
    than a second away from [stop - start]. *)
Definition duration_identity (e : TimeEntry) (st : store) : bool :=
  match deref st (Start e), deref st (Stop e) with
  | Some t0, Some t1 =>
      Z.abs (Duration e * time.Second - (t1 - t0)) <? time.Second
  | _, _ => false
  end.

Definition in_range (z : Z) : bool := (min_int64 <=? z) && (z <=? max_int64).

(** The 64-bit arithmetic of the call stays in range. *)
Definition no_overflow (m : mutation) (e : TimeEntry) (st : store) : bool :=
  match m with
  | CallSetDuration d => in_range (d * time.Second)
  | CallSetStartTime start true => in_range (Duration e * time.Second)
  | CallSetStartTime start false =>
      match deref st (Stop e) with
      | Some t1 => in_range (time.Unix t1 - time.Unix start)
      | None => false
      end
  | CallSetStopTime stop =>
      match deref st (Start e) with
      | Some t0 => in_range (stop - t0)
      | None => false
      end
  end.

(** Every call of the sequence finds the entry stopped and stays in
    range. *)
Fixpoint on_stopped (ms : list mutation) (e : TimeEntry) (st : store)
    : bool :=
  match ms with
  | [] => true
  | m :: ms' =>
      negb (IsRunning e) && no_overflow m e st &&
      match mutate m e st with
      | Some (_, e', st') => on_stopped ms' e' st'
      | None => false
      end
  end.

(** *** Creating entries through a [Session] *)

Module create.

Record timeEntryCreate : Type := mkCreate {
  Billable : bool;
  Description : string;
  Duration : Z;
  ProjectID : option Z;
  TaskID : option Z;
  Start : option nat;
  Stop : option nat;
  Tags : slice;
  WorkspaceId : Z
}.

Definition set_Start (p : option nat) (t : timeEntryCreate)
    : timeEntryCreate :=
  {| Billable := Billable t; Description := Description t;
     Duration := Duration t; ProjectID := ProjectID t; TaskID := TaskID t;
     Start := p; Stop := Stop t; Tags := Tags t;
     WorkspaceId := WorkspaceId t |}.

End create.

Definition withMetadataFromTimeEntry (timeEntry : TimeEntry)
    (t : create.timeEntryCreate) : create.timeEntryCreate :=
  {| create.Billable := Billable timeEntry;
     create.Description := create.Description t;
     create.Duration := create.Duration t;
     create.ProjectID := Pid timeEntry;
     create.TaskID := Tid timeEntry;
     create.Start := create.Start t;
     create.Stop := create.Stop t;
     create.Tags := Tags timeEntry;
     create.WorkspaceId := create.WorkspaceId t |}.

(** [now] is the reading of [time.Now()]. *)
Definition newStartEntryRequestData (now : Z) (description : string)
    (workspaceId : Z) (st : store) : create.timeEntryCreate * store :=
  let '(p, st) := new_time now st in
  ({| create.Billable := false;
      create.Description := description;
      create.Duration := -1;
      create.ProjectID := None;
      create.TaskID := None;
      create.Start := Some p;
      create.Stop := None;
      create.Tags := nil_slice;
      create.WorkspaceId := workspaceId |}, st).

(** The requests a session sends for time entries:
    POST /workspaces/[wid]/time_entries with the entry as its body, and
    DELETE /workspaces/[wid]/time_entries/[id]. *)
Inductive call : Type :=
  | PostTimeEntry (wid : Z) (body : create.timeEntryCreate)
  | DeleteEntry (wid id : Z).

Section Session.

(** The remote service and the JSON decoder are collaborators: the
    service answers a request with an error ([inl]) or a payload ([inr])
    and moves to a new state; the decoder turns a payload into an entry,
    allocating its instants, or fails. *)
Context {W : Type}.
Variable request : call → store → W → (string + string) * W.
Variable unmarshal : string → store → (string + TimeEntry) * store.

(** The service together with the requests sent to it so far. *)
Record world : Type := mkWorld {
  remote : W;
  sent : list call
}.

Definition send (c : call) (st : store) (w : world)
    : (string + string) * world :=
  let '(r, s) := request c st (remote w) in
  (r, {| remote := s; sent := sent w ++ [c] |}).

(** A Go result pair [(TimeEntry, error)], the nil error being [None]. *)
Definition handleTimeEntryResponse (r : string + string) (st : store)
    : TimeEntry * option string * store :=
  match r with
  | inl err => (zero_TimeEntry, Some err, st)
  | inr data =>
      let '(d, st) := unmarshal data st in
      match d with
      | inl err => (zero_TimeEntry, Some err, st)
      | inr entry => (entry, None, st)
      end
  end.

Definition startTimeEntry (timeEntry : create.timeEntryCreate) (st : store)
    (w : world) : TimeEntry * option string * store * world :=
  let '(r, w) :=
    send (PostTimeEntry (create.WorkspaceId timeEntry) timeEntry) st w in
  (handleTimeEntryResponse r st, w).

Definition DeleteTimeEntry (timer : TimeEntry) (st : store) (w : world)
    : (string + string) * world :=
  send (DeleteEntry (Wid timer) (ID timer)) st w.

Definition UnstopTimeEntry (now : Z) (timer : TimeEntry) (st : store)
    (w : world) : TimeEntry * option string * store * world :=
  let '(entry, st) :=
    newStartEntryRequestData now (Description timer) (Wid timer) st in
  let entry := withMetadataFromTimeEntry timer entry in
  let entry := create.set_Start (Start timer) entry in
  let '(newEntry, err, st, w) := startTimeEntry entry st w in
  match err with
  | Some err => (zero_TimeEntry, Some err, st, w)
  | None =>
      let '(r, w) := DeleteTimeEntry timer st w in
      match r with
      | inl err =>
          (zero_TimeEntry,
           Some ("old entry not deleted: " ++ err)%string, st, w)
      | inr _ => (newEntry, None, st, w)
      end
  end.

End Session.

Arguments world W : clear implicits.

(** *** Starting and continuing entries *)
Section Start.

Context {W : Type}.
Variable request : call → store → W → (string + string) * W.
Variable unmarshal : string → store → (string + TimeEntry) * store.

(** [t.Local().Format("2006-01-02")], the calendar day of an instant in
    the local time zone, which is the environment's. *)
Variable local_day : Z → string.

Definition StartTimeEntry (now : Z) (description : string) (wid : Z)
    (st : store) (w : world W) : TimeEntry * option string * store * world W :=
  let '(entry, st) := newStartEntryRequestData now description wid st in
  startTimeEntry request unmarshal entry st w.

(** [billable] is a [*bool], nil being [None]. *)
Definition StartTimeEntryForProject (now : Z) (description : string)
    (wid projectID : Z) (billable : option bool) (st : store) (w : world W)
    : TimeEntry * option string * store * world W :=
  let '(entry, st) := newStartEntryRequestData now description wid st in
  let entry :=
    {| create.Billable := create.Billable entry;
       create.Description := create.Description entry;
       create.Duration := create.Duration entry;
       create.ProjectID := Some projectID;
       create.TaskID := create.TaskID entry;
       create.Start := create.Start entry;
       create.Stop := create.Stop entry;
       create.Tags := create.Tags entry;
       create.WorkspaceId := create.WorkspaceId entry |} in
  let entry :=
    match billable with
    | Some b =>
        {| create.Billable := b;
           create.Description := create.Description entry;
           create.Duration := create.Duration entry;
           create.ProjectID := create.ProjectID entry;
           create.TaskID := create.TaskID entry;
           create.Start := create.Start entry;
           create.Stop := create.Stop entry;
           create.Tags := create.Tags entry;
           create.WorkspaceId := create.WorkspaceId entry |}
    | None => entry
    end in
  startTimeEntry request unmarshal entry st w.

(** [now0] is the clock reading of the test for the same day, [now] the
    one taken when the request is built. The test dereferences
    [timer.Start], and only when [duronly] holds; on a nil pointer it
    panics ([None]). *)
Definition ContinueTimeEntry (now0 now : Z) (timer : TimeEntry)
    (duronly : bool) (st : store) (w : world W)
    : option (TimeEntry * option string * store * world W) :=
  today ←
    (if duronly then
       start ← deref st (Start timer);
       Some (String.eqb (local_day now0) (local_day start))
     else Some false);
  if today : bool then
    Some (UnstopTimeEntry request unmarshal now timer st w)
  else
    let '(entry, st) :=
      newStartEntryRequestData now (Description timer) (Wid timer) st in
    let entry := withMetadataFromTimeEntry timer entry in
    Some (startTimeEntry request unmarshal entry st w).

End Start.

(** *** Stand-ins for the collaborators *)

(** A service that accepts creations and refuses deletions, and a decoder
    that answers a running entry, for examples. *)
Definition demo_request (c : call) (_ : store) (n : nat)
    : (string + string) * nat :=
  match c with
  | PostTimeEntry _ _ => (inr "{}"%string, S n)
  | DeleteEntry _ _ => (inl "403"%string, n)
  end.

Definition demo_unmarshal (_ : string) (st : store)
    : (string + TimeEntry) * store :=
  (inr (set_Duration (-1) zero_TimeEntry), st).

(** The day number in UTC, printed in unary, stands for the formatted
    date. *)
Definition demo_day (t : Z) : string :=
  String.concat ""
    (replicate (Z.to_nat (t / (86400 * time.Second))) "d"%string).

End toggl.

(* ================================================================== *)
(** * Properties *)

(** ** Machine integers *)

Lemma min_int64_eq : min_int64 = -9223372036854775808.
Proof. reflexivity. Qed.

Lemma max_int64_eq : max_int64 = 9223372036854775807.
Proof. reflexivity. Qed.

Lemma wrap64_id z : in_int64 z → wrap64 z = z.
Proof.
  unfold in_int64, wrap64. rewrite min_int64_eq, max_int64_eq.
  change (2 ^ 63) with 9223372036854775808.
  change (2 ^ 64) with 18446744073709551616.
  intros H. rewrite Z.mod_small; lia.
Qed.

Lemma sat64_id z : in_int64 z → sat64 z = z.
Proof. unfold in_int64, sat64. lia. Qed.

Lemma sat64_range z : in_int64 (sat64 z).
Proof. unfold in_int64, sat64. rewrite min_int64_eq, max_int64_eq. lia. Qed.

Example New_default_ttl :
  cache.ttl (cache.New (V := Z) 7 0) = 300000000000.
Proof. vm_compute. reflexivity. Qed.

Example New_then_get :
  (λ r, r.1) <$>
    cache.Get (V := Z) 8 resource.Projects 1 2
      (cache.Set_ resource.Projects 1 1 (Some 42) (cache.New 7 0))
  = Some (None, false).
Proof. vm_compute. reflexivity. Qed.

(** ** The expiry sweep *)
Module cache_facts.
Import cache.

Section Sweep.

Context {V : Type}.
Implicit Types c : ResourcesCache V.

Lemma sweep_fold now c (m : gmap Z Z) :
  let r := map_fold (expire_step now) c m in
  ttl r = ttl c ∧ stats r = stats c ∧
  (∀ rt, caches r !! rt =
           match m !! rt with
           | Some ts => if ttl c <? time.Since now ts then Some ∅
                        else caches c !! rt
           | None => caches c !! rt
           end) ∧
  (∀ rt, timestamp r !! rt =
           match m !! rt with
           | Some ts => if ttl c <? time.Since now ts then Some now
                        else timestamp c !! rt
           | None => timestamp c !! rt
           end).
Proof.
  apply (map_fold_weak_ind
           (λ r m, ttl r = ttl c ∧ stats r = stats c ∧
              (∀ rt, caches r !! rt =
                 match m !! rt with
                 | Some ts => if ttl c <? time.Since now ts then Some ∅
                              else caches c !! rt
                 | None => caches c !! rt
                 end) ∧
              (∀ rt, timestamp r !! rt =
                 match m !! rt with
                 | Some ts => if ttl c <? time.Since now ts then Some now
                              else timestamp c !! rt
                 | None => timestamp c !! rt
                 end))).
  - repeat split; intros; by rewrite lookup_empty.
  - intros i x m' r Hi (Httl & Hst & Hca & Hts).
    unfold expire_step. rewrite Httl.
    destruct (ttl c <? time.Since now x) eqn:Hx; simpl.
    + repeat split; try done; intros rt;
        destruct (decide (i = rt)) as [->|Hne];
        rewrite ?lookup_insert_eq, ?Hx; try done;
        rewrite !lookup_insert_ne by done; auto.
    + repeat split; try done; intros rt;
        destruct (decide (i = rt)) as [->|Hne].
      * rewrite lookup_insert_eq, Hx, Hca, Hi. done.
      * rewrite lookup_insert_ne by done. apply Hca.
      * rewrite lookup_insert_eq, Hx, Hts, Hi. done.
      * rewrite lookup_insert_ne by done. apply Hts.
Qed.

Lemma expireCacheIf_ttl now c : ttl (expireCacheIf now c) = ttl c.
Proof. apply (sweep_fold now c (timestamp c)). Qed.

Lemma expireCacheIf_stats now c : stats (expireCacheIf now c) = stats c.
Proof. apply (sweep_fold now c (timestamp c)). Qed.

Lemma expireCacheIf_caches now c rt :
  caches (expireCacheIf now c) !! rt =
    if expired now rt c then Some ∅ else caches c !! rt.
Proof.
  destruct (sweep_fold now c (timestamp c)) as (_ & _ & H & _).
  unfold expireCacheIf, expired. rewrite H.
  by destruct (timestamp c !! rt).
Qed.

Lemma expireCacheIf_timestamp now c rt :
  timestamp (expireCacheIf now c) !! rt =
    if expired now rt c then Some now else timestamp c !! rt.
Proof.
  destruct (sweep_fold now c (timestamp c)) as (_ & _ & _ & H).
  unfold expireCacheIf, expired. rewrite H.
  by destruct (timestamp c !! rt).
Qed.

(** Unless the TTL is the largest [Duration], the clamping of
    [time.Since] does not change the outcome of the comparison. *)
Lemma Since_exceeds now ts t :
  min_int64 <= t < max_int64 →
  (t < time.Since now ts ↔ t < now - ts).
Proof.
  unfold time.Since, time.Sub, sat64.
  rewrite min_int64_eq, max_int64_eq. lia.
Qed.

Lemma expired_true now rt c ts :
  timestamp c !! rt = Some ts → ttl c < time.Since now ts →
  expired now rt c = true.
Proof. intros Hts Hlt. unfold expired. rewrite Hts. by apply Z.ltb_lt. Qed.

(** *** The counters *)

Lemma incr_Some k rt c s :
  stats c !! rt = Some s →
  ∃ c', incr k rt c = Some c' ∧
        caches c' = caches c ∧ timestamp c' = timestamp c ∧
        ttl c' = ttl c ∧
        counter k rt c' = wrap64 (counter k rt c + 1) ∧
        (∀ k' rt', (k', rt') ≠ (k, rt) →
                   counter k' rt' c' = counter k' rt' c).
Proof.
  intros Hs. unfold incr. rewrite Hs. eexists. split; [done|].
  repeat split; try done.
  - unfold counter; simpl. rewrite Hs, lookup_insert_eq; simpl.
    by rewrite lookup_insert_eq.
  - intros k' rt' Hne. unfold counter; simpl.
    destruct (decide (rt = rt')) as [->|Hrt].
    + rewrite lookup_insert_eq, Hs; simpl.
      rewrite lookup_insert_ne; [done|congruence].
    + by rewrite lookup_insert_ne.
Qed.

(** *** Reads *)

(** Once the kind's partition and the workspace's sub-partition exist,
    [Get] counts a hit, whether or not the id is stored. *)
Lemma Get_workspace_present now rt wid id c ws es s :
  caches (expireCacheIf now c) !! rt = Some ws →
  ws !! wid = Some es →
  stats c !! rt = Some s →
  ∃ c', Get now rt wid id c
          = Some (default None (es !! id), bool_decide (is_Some (es !! id)), c')
        ∧ counter hits rt c' = wrap64 (counter hits rt c + 1)
        ∧ counter misses rt c' = counter misses rt c.
Proof.
  intros Hws Hes Hs.
  destruct (incr_Some hits rt (expireCacheIf now c) s)
    as (c' & Hc' & _ & _ & _ & Hh & Hm).
  { by rewrite expireCacheIf_stats. }
  exists c'. unfold Get; cbv zeta. rewrite Hws, Hes.
  split; [|split].
  - destruct (es !! id) as [v|]; simpl; by rewrite Hc'.
  - rewrite Hh. unfold counter. by rewrite expireCacheIf_stats.
  - rewrite Hm by (unfold hits, misses; congruence).
    unfold counter. by rewrite expireCacheIf_stats.
Qed.

(** Without the kind's partition or the workspace's sub-partition, [Get]
    counts a miss. *)
Lemma Get_workspace_absent now rt wid id c s :
  (caches (expireCacheIf now c) !! rt ≫= lookup wid) = None →
  stats c !! rt = Some s →
  ∃ c', Get now rt wid id c = Some (None, false, c')
        ∧ counter misses rt c' = wrap64 (counter misses rt c + 1)
        ∧ counter hits rt c' = counter hits rt c.
Proof.
  intros Hno Hs.
  destruct (incr_Some misses rt (expireCacheIf now c) s)
    as (c' & Hc' & _ & _ & _ & Hm & Hh).
  { by rewrite expireCacheIf_stats. }
  exists c'. unfold Get; cbv zeta.
  split; [|split].
  - destruct (caches (expireCacheIf now c) !! rt) as [ws|]; simpl in *;
      [rewrite Hno|]; by rewrite Hc'.
  - rewrite Hm. unfold counter. by rewrite expireCacheIf_stats.
  - rewrite Hh by (unfold hits, misses; congruence).
    unfold counter. by rewrite expireCacheIf_stats.
Qed.

End Sweep.

(** C1. [Get] of an id that is absent from an existing workspace
    sub-partition returns found=false, yet the code at this point
    increments the kind's hit counter and leaves the miss counter alone:
    after [New] at clock 7 and [Set(Projects, 1, 1, 42)], the call
    [Get(Projects, 1, 2)] at clock 8 answers (nil, false) and turns the
    statistics of the kind from (1, 0, 0) into (1, 1, 0). *)
Theorem Get_absent_id_records_hit :
  let c0 := Set_ resource.Projects 1 1 (Some 42) (New (V := Z) 7 0) in
  Stats resource.Projects c0 = (1, 0, 0) ∧
  ∃ c1, Get 8 resource.Projects 1 2 c0 = Some (None, false, c1) ∧
        Stats resource.Projects c1 = (1, 1, 0).
Proof.
  cbv zeta. split; [by vm_compute|].
  eexists. split; [by vm_compute|]. by vm_compute.
Qed.

(** C3, the claim as stated fails: [Clear] called at clock 9 on a cache
    created at clock 7 leaves the kind's timestamp at 7 instead of
    moving it to 9, and the kind's next expiry is still counted from 7.
    With a TTL of 10, an entity stored right after that [Clear] is swept
    by the [Get] at clock 18, although the partition was cleared only 9
    ticks before. *)
Lemma Clear_keeps_timestamp :
  let c0 := New (V := Z) 7 10 in
  timestamp (Clear resource.Projects c0) !! resource.Projects = Some 7 ∧
  timestamp (Clear resource.Projects c0) !! resource.Projects ≠ Some 9 ∧
  (λ r, r.1) <$>
    Get 18 resource.Projects 1 1
      (Set_ resource.Projects 1 1 (Some 42) (Clear resource.Projects c0))
  = Some (None, false).
Proof. cbv zeta. repeat split; by vm_compute. Qed.

(** C3, amended. [Clear rt] replaces the partition of kind [rt] by an
    empty one and changes nothing else: the partitions of the other kinds,
    the timestamps of all kinds (that of [rt] included), the statistics
    and the TTL are as before. [Set] leaves every timestamp, the
    statistics and the TTL as they are. *)
Theorem Clear_Set_frame {V : Type} (c : ResourcesCache V) (rt : Z) :
  caches (Clear rt c) !! rt = Some ∅ ∧
  (∀ rt', rt' ≠ rt → caches (Clear rt c) !! rt' = caches c !! rt') ∧
  timestamp (Clear rt c) = timestamp c ∧
  stats (Clear rt c) = stats c ∧
  ttl (Clear rt c) = ttl c ∧
  (∀ wid id data,
     timestamp (Set_ rt wid id data c) = timestamp c ∧
     stats (Set_ rt wid id data c) = stats c ∧
     ttl (Set_ rt wid id data c) = ttl c).
Proof.
  repeat split; try done.
  - unfold Clear; simpl. by rewrite lookup_insert_eq.
  - intros rt' Hne. unfold Clear; simpl. by rewrite lookup_insert_ne.
  - unfold Set_; cbv zeta; simpl.
    destruct (caches c !! rt); simpl;
      repeat (match goal with |- context [match ?x with _ => _ end] =>
                destruct x end; simpl); done.
  - unfold Set_; cbv zeta; simpl.
    destruct (caches c !! rt); simpl;
      repeat (match goal with |- context [match ?x with _ => _ end] =>
                destruct x end; simpl); done.
  - unfold Set_; cbv zeta; simpl.
    destruct (caches c !! rt); simpl;
      repeat (match goal with |- context [match ?x with _ => _ end] =>
                destruct x end; simpl); done.
Qed.

(** A bumped counter is all that [incr] changes. *)
Lemma incr_frame {V : Type} k rt (c c' : ResourcesCache V) :
  incr k rt c = Some c' →
  caches c' = caches c ∧ timestamp c' = timestamp c ∧ ttl c' = ttl c.
Proof.
  unfold incr. destruct (stats c !! rt); [|done]. by intros [= <-].
Qed.

(** C7. The sweep comes first in [Get], [GetMap] and [GetList] and last
    in [SetTTL]. It treats each kind on its own: a kind whose age
    [time.Since now ts] is over the TTL gets an empty partition and the
    timestamp [now], a kind that is not over it keeps both. A read of an
    expired kind therefore answers found=false, on a cache whose partition
    for the kind is empty and stamped [now]; and [SetTTL] with a TTL below
    the age of a kind clears that kind at once. The sweep of a read is
    the whole sweep, whatever kind is read: a read of any kind leaves the
    partitions and timestamps of all kinds as the sweep makes them, and
    answers from the partitions as swept. [SetTTL] keeps the kinds that
    are not over the new TTL. *)
Theorem expiry_sweep_before_reads {V : Type} (c : ResourcesCache V)
    (now rt ts : Z) (s : gmap Z Z) :
  timestamp c !! rt = Some ts →
  stats c !! rt = Some s →
  (ttl c < time.Since now ts →
     caches (expireCacheIf now c) !! rt = Some ∅ ∧
     timestamp (expireCacheIf now c) !! rt = Some now ∧
     (∀ wid id, ∃ c', Get now rt wid id c = Some (None, false, c') ∧
                      caches c' !! rt = Some ∅ ∧
                      timestamp c' !! rt = Some now) ∧
     (∀ wid, ∃ c', GetMap now rt wid c = Some (None, false, c') ∧
                   caches c' !! rt = Some ∅ ∧
                   timestamp c' !! rt = Some now) ∧
     (∀ wid, ∃ c', GetList now rt wid c = Some ([], false, c') ∧
                   caches c' !! rt = Some ∅ ∧
                   timestamp c' !! rt = Some now)) ∧
  (∀ rt', expired now rt' c = false →
     caches (expireCacheIf now c) !! rt' = caches c !! rt' ∧
     timestamp (expireCacheIf now c) !! rt' = timestamp c !! rt') ∧
  (∀ t, t < time.Since now ts →
     ttl (SetTTL now t c) = t ∧
     caches (SetTTL now t c) !! rt = Some ∅ ∧
     timestamp (SetTTL now t c) !! rt = Some now) ∧
  (∀ rt' wid id r,
     Get now rt' wid id c = Some r →
     caches r.2 = caches (expireCacheIf now c) ∧
     timestamp r.2 = timestamp (expireCacheIf now c) ∧
     ttl r.2 = ttl c ∧
     r.1 = (default None (entity rt' wid id (expireCacheIf now c)),
            bool_decide (is_Some (entity rt' wid id (expireCacheIf now c))))) ∧
  (∀ rt' wid r,
     GetMap now rt' wid c = Some r →
     caches r.2 = caches (expireCacheIf now c) ∧
     timestamp r.2 = timestamp (expireCacheIf now c) ∧
     ttl r.2 = ttl c ∧
     r.1 = (caches (expireCacheIf now c) !! rt' ≫= lookup wid,
            bool_decide
              (is_Some (caches (expireCacheIf now c) !! rt' ≫= lookup wid)))) ∧
  (∀ rt' wid r,
     GetList now rt' wid c = Some r →
     caches r.2 = caches (expireCacheIf now c) ∧
     timestamp r.2 = timestamp (expireCacheIf now c) ∧
     ttl r.2 = ttl c ∧
     r.1.2 = bool_decide
               (is_Some (caches (expireCacheIf now c) !! rt' ≫= lookup wid))) ∧
  (∀ t rt', expired now rt' (with_ttl t c) = false →
     caches (SetTTL now t c) !! rt' = caches c !! rt' ∧
     timestamp (SetTTL now t c) !! rt' = timestamp c !! rt') ∧
  (∀ t, stats (SetTTL now t c) = stats c).
Proof.
  intros Hts Hs. split; [|split; [|split; [|split; [|split; [|split; [|split]]]]]].
  - intros Hlt.
    pose proof (expired_true now rt c ts Hts Hlt) as Hexp.
    assert (Hca : caches (expireCacheIf now c) !! rt = Some ∅)
      by (by rewrite expireCacheIf_caches, Hexp).
    assert (Hti : timestamp (expireCacheIf now c) !! rt = Some now)
      by (by rewrite expireCacheIf_timestamp, Hexp).
    destruct (incr_Some misses rt (expireCacheIf now c) s)
      as (c' & Hc' & Hca' & Hts' & _).
    { by rewrite expireCacheIf_stats. }
    repeat split; try done; intros; exists c';
      unfold Get, GetMap, GetList; cbv zeta;
      rewrite Hca, lookup_empty, Hc'; simpl;
      by rewrite Hca', Hts'.
  - intros rt' Hno.
    by rewrite expireCacheIf_caches, expireCacheIf_timestamp, Hno.
  - intros t Hlt. unfold SetTTL.
    assert (Hexp : expired now rt (with_ttl t c) = true)
      by (by apply (expired_true now rt (with_ttl t c) ts)).
    by rewrite expireCacheIf_ttl, expireCacheIf_caches,
      expireCacheIf_timestamp, Hexp.
  - intros rt' wid id r. unfold Get, entity. cbv zeta.
    destruct (caches (expireCacheIf now c) !! rt') as [ws|]; simpl;
      [destruct (ws !! wid) as [es|]; simpl; [destruct (es !! id)|]|];
      (destruct (incr _ rt' (expireCacheIf now c)) as [c'|] eqn:Hincr;
       simpl; [|done]);
      intros [= <-]; simpl;
      destruct (incr_frame _ _ _ _ Hincr) as (-> & -> & ->);
      by rewrite expireCacheIf_ttl.
  - intros rt' wid r. unfold GetMap. cbv zeta.
    destruct (caches (expireCacheIf now c) !! rt') as [ws|]; simpl;
      [destruct (ws !! wid) as [es|]; simpl|];
      (destruct (incr _ rt' (expireCacheIf now c)) as [c'|] eqn:Hincr;
       simpl; [|done]);
      intros [= <-]; simpl;
      destruct (incr_frame _ _ _ _ Hincr) as (-> & -> & ->);
      by rewrite expireCacheIf_ttl.
  - intros rt' wid r. unfold GetList. cbv zeta.
    destruct (caches (expireCacheIf now c) !! rt') as [ws|]; simpl;
      [destruct (ws !! wid) as [es|]; simpl|];
      (destruct (incr _ rt' (expireCacheIf now c)) as [c'|] eqn:Hincr;
       simpl; [|done]);
      intros [= <-]; simpl;
      destruct (incr_frame _ _ _ _ Hincr) as (-> & -> & ->);
      by rewrite expireCacheIf_ttl.
  - intros t rt' Hno. unfold SetTTL.
    by rewrite expireCacheIf_caches, expireCacheIf_timestamp, Hno.
  - intros t. unfold SetTTL. by rewrite expireCacheIf_stats.
Qed.

(** The sweep of C7 at work. At clock 400000000000 the projects of a
    cache created at clock 0 with the default TTL of five minutes are
    gone, and the read of another kind, the tags, has swept them too. *)
Lemma expiry_sweep_before_reads_witness :
  let c := Set_ resource.Projects 1 1 (Some 42) (New (V := Z) 0 0) in
  caches (expireCacheIf 400000000000 c) !! resource.Projects = Some ∅ ∧
  (∃ c', Get 400000000000 resource.Projects 1 1 c = Some (None, false, c')) ∧
  ∃ r, Get 400000000000 resource.Tags 1 1 c = Some r ∧
       caches r.2 !! resource.Projects = Some ∅.
Proof.
  cbv zeta.
  destruct (expiry_sweep_before_reads
              (Set_ resource.Projects 1 1 (Some 42) (New (V := Z) 0 0))
              400000000000 resource.Projects 0 ∅)
    as (Hexp & _ & _ & Hread & _); [by vm_compute | by vm_compute |].
  destruct Hexp as (Hca & _ & Hget & _); [by vm_compute|].
  split; [exact Hca|]. split.
  - destruct (Hget 1 1) as (c' & Hc' & _). by exists c'.
  - assert (Hr : ∃ r, Get 400000000000 resource.Tags 1 1
                        (Set_ resource.Projects 1 1 (Some 42)
                           (New (V := Z) 0 0)) = Some r)
      by (eexists; by vm_compute).
    destruct Hr as [r Hr]. exists r. split; [exact Hr|].
    destruct (Hread resource.Tags 1 1 r Hr) as (-> & _). exact Hca.
Defined.

End cache_facts.

(** ** Resource URLs *)
Module resource_laws.
Import resource.

Lemma free_of_app c s1 s2 :
  free_of c (s1 +:+ s2) = free_of c s1 && free_of c s2.
Proof.
  induction s1 as [|c' s1 IH]; simpl; [done|].
  by rewrite IH, andb_assoc.
Qed.

Lemma app_assoc_string (s1 s2 s3 : string) :
  (s1 +:+ s2) +:+ s3 = s1 +:+ s2 +:+ s3.
Proof.
  induction s1 as [|c s1 IH]; [done|].
  change (String c ((s1 +:+ s2) +:+ s3) = String c (s1 +:+ s2 +:+ s3)).
  by rewrite IH.
Qed.

(** Two strings that agree up to and after their first [c]. *)
Lemma split_at c s1 r1 s2 r2 :
  free_of c s1 = true → free_of c s2 = true →
  s1 +:+ String c r1 = s2 +:+ String c r2 → s1 = s2 ∧ r1 = r2.
Proof.
  revert s2. induction s1 as [|a s1 IH]; intros [|b s2]; simpl.
  - by intros _ _ [= ->].
  - intros _ [Hb _]%andb_true_iff [= <- _].
    by rewrite Ascii.eqb_refl in Hb.
  - intros [Ha _]%andb_true_iff _ [= -> _].
    by rewrite Ascii.eqb_refl in Ha.
  - intros [_ H1]%andb_true_iff [_ H2]%andb_true_iff [= -> Heq].
    destruct (IH s2 H1 H2 Heq) as [-> ->]. done.
Qed.

Lemma pretty_N_char_no_slash x :
  Ascii.eqb (pretty_N_char x) slash = false.
Proof.
  unfold pretty_N_char.
  repeat (match goal with
          | |- context [match ?y with _ => _ end] => destruct y
          end; try done).
Qed.

Lemma pretty_N_go_no_slash x s :
  free_of slash s = true → free_of slash (pretty_N_go x s) = true.
Proof.
  revert s. induction (N.lt_wf_0 x) as [x _ IH]; intros s Hs.
  destruct (decide (0 < x)%N) as [Hpos|Hzero].
  - rewrite pretty_N_go_step by done. apply IH.
    + by apply N.div_lt.
    + simpl. by rewrite pretty_N_char_no_slash.
  - assert (x = 0%N) as -> by lia. by rewrite pretty_N_go_0.
Qed.

Lemma pretty_Z_no_slash (z : Z) : free_of slash (pretty z) = true.
Proof.
  assert (HN : ∀ n : N, free_of slash (pretty n) = true).
  { intros n. unfold pretty, pretty_N. case_decide; [done|].
    by apply pretty_N_go_no_slash. }
  destruct z as [|p|p]; [done|apply HN|].
  unfold pretty, pretty_Z. simpl. apply HN.
Qed.

Lemma String_known t :
  0 <= t <= 3 →
  free_of slash (String_ t) = true ∧
  ∀ t', 0 <= t' <= 3 → String_ t = String_ t' → t = t'.
Proof.
  intros Ht.
  assert (t = 0 ∨ t = 1 ∨ t = 2 ∨ t = 3) as [-> | [-> | [-> | ->]]] by lia;
    (split; [done|]); intros t' Ht';
    assert (t' = 0 ∨ t' = 1 ∨ t' = 2 ∨ t' = 3)
      as [-> | [-> | [-> | ->]]] by lia;
    by vm_compute.
Qed.

(** X25. For the four kinds, the URL of a resource tells the resource:
    two item URLs are equal only for the same kind, workspace and id, two
    collection URLs only for the same kind and workspace, two user URLs
    only for the same kind, and no collection URL is an item URL. A
    number that is no kind has the empty name, so that all such numbers
    share their URLs. *)
Theorem resource_URLs_tell_apart (t t' wid wid' id id' : Z) :
  (0 <= t <= 3 → 0 <= t' <= 3 →
     (GenerateResourceURLWithID t wid id
        = GenerateResourceURLWithID t' wid' id' →
      t = t' ∧ wid = wid' ∧ id = id') ∧
     (GenerateResourceURL t wid = GenerateResourceURL t' wid' →
      t = t' ∧ wid = wid') ∧
     (GenerateUserResourceURL t = GenerateUserResourceURL t' → t = t') ∧
     GenerateResourceURL t wid ≠ GenerateResourceURLWithID t' wid' id') ∧
  (¬ 0 <= t <= 3 → ¬ 0 <= t' <= 3 →
     GenerateResourceURL t wid = GenerateResourceURL t' wid ∧
     GenerateResourceURLWithID t wid id = GenerateResourceURLWithID t' wid id ∧
     GenerateUserResourceURL t = "/me/"%string).
Proof.
  split.
  - intros Ht Ht'.
    destruct (String_known t Ht) as [Hfree Hinj].
    destruct (String_known t' Ht') as [Hfree' _].
    pose proof (pretty_Z_no_slash wid) as Hw.
    pose proof (pretty_Z_no_slash wid') as Hw'.
    unfold GenerateResourceURLWithID, GenerateResourceURL,
      GenerateUserResourceURL.
    rewrite !app_assoc_string. simpl.
    split; [|split; [|split]].
    + intros [= Heq].
      apply split_at in Heq as [Hwid Heq]; [|done..].
      apply split_at in Heq as [Hname Hid]; [|done..].
      split; [by apply Hinj|].
      split; [by apply (inj pretty)|by apply (inj pretty)].
    + intros [= Heq].
      apply split_at in Heq as [Hwid Hname]; [|done..].
      split; [by apply Hinj|by apply (inj pretty)].
    + intros [= Heq]. by apply Hinj.
    + intros [= Heq].
      apply split_at in Heq as [_ Hname]; [|done..].
      rewrite Hname, free_of_app in Hfree. simpl in Hfree.
      by rewrite andb_false_r in Hfree.
  - intros Ht Ht'.
    assert (Hname : ∀ k, ¬ 0 <= k <= 3 → String_ k = ""%string).
    { intros k Hk. unfold String_, TypeMap, Clients, Projects, Tags,
        TimeEntries.
      rewrite !lookup_insert. repeat case_decide; subst; try lia.
      by rewrite lookup_empty. }
    unfold GenerateResourceURLWithID, GenerateResourceURL,
      GenerateUserResourceURL.
    by rewrite !Hname.
Qed.

(** X25, at work. *)
Lemma resource_URLs_tell_apart_witness :
  GenerateResourceURLWithID TimeEntries 12 345
    = "/workspaces/12/time_entries/345"%string ∧
  GenerateResourceURLWithID TimeEntries 12 345
    ≠ GenerateResourceURLWithID Tags 12 345.
Proof.
  split; [by vm_compute|]. intros Heq.
  destruct (proj1 (resource_URLs_tell_apart TimeEntries Tags 12 12 345 345))
    as (Hitem & _); [by vm_compute..|].
  destruct (Hitem Heq) as [Hkind _]. by vm_compute in Hkind.
Defined.

End resource_laws.

(** ** More on the cache: writes, creation, sequences of calls *)
Module cache_laws.
Import cache cache_facts.

Section Laws.

Context {V : Type}.
Implicit Types c : ResourcesCache V.

(** *** [Set] *)

(** [Set] in one step: the entity goes into the workspace's map, that map
    into the kind's partition, new ones being made where there is none. *)
Lemma Set_caches rt wid id data c :
  caches (Set_ rt wid id data c) =
    <[rt := <[wid := <[id := data]>
                       (default ∅ (default ∅ (caches c !! rt) !! wid))]>
              (default ∅ (caches c !! rt))]> (caches c).
Proof.
  unfold Set_. cbv zeta.
  destruct (caches c !! rt) as [ws|] eqn:Hws; simpl.
  - rewrite Hws. simpl.
    destruct (ws !! wid) as [es|] eqn:Hes; simpl.
    + rewrite Hws. simpl. by rewrite Hes.
    + rewrite lookup_insert_eq. simpl. rewrite lookup_insert_eq. simpl.
      by rewrite !insert_insert_eq.
  - rewrite lookup_insert_eq. simpl. rewrite lookup_empty. simpl.
    rewrite lookup_insert_eq. simpl. rewrite lookup_insert_eq. simpl.
    by rewrite !insert_insert_eq.
Qed.

Lemma Set_other_fields rt wid id data c :
  timestamp (Set_ rt wid id data c) = timestamp c ∧
  stats (Set_ rt wid id data c) = stats c ∧
  ttl (Set_ rt wid id data c) = ttl c.
Proof.
  unfold Set_. cbv zeta.
  destruct (caches c !! rt) as [ws|]; simpl;
    repeat (match goal with |- context [match ?x with _ => _ end] =>
              destruct x end; simpl); done.
Qed.

Lemma Set_expired now rt' rt wid id data c :
  expired now rt' (Set_ rt wid id data c) = expired now rt' c.
Proof.
  destruct (Set_other_fields rt wid id data c) as (Hts & _ & Httl).
  unfold expired. by rewrite Hts, Httl.
Qed.

Lemma Set_entity_eq rt wid id data c :
  entity rt wid id (Set_ rt wid id data c) = Some data.
Proof.
  unfold entity. rewrite Set_caches, lookup_insert_eq. simpl.
  rewrite lookup_insert_eq. simpl. by rewrite lookup_insert_eq.
Qed.

Lemma Set_entity_ne rt wid id data c rt' wid' id' :
  (rt', wid', id') ≠ (rt, wid, id) →
  entity rt' wid' id' (Set_ rt wid id data c) = entity rt' wid' id' c.
Proof.
  intros Hne. unfold entity. rewrite Set_caches.
  destruct (decide (rt' = rt)) as [->|Hrt];
    [|by rewrite lookup_insert_ne].
  rewrite lookup_insert_eq. simpl.
  destruct (decide (wid' = wid)) as [->|Hwid].
  - rewrite lookup_insert_eq. simpl.
    rewrite lookup_insert_ne by congruence.
    destruct (caches c !! rt) as [ws|]; simpl; [|done].
    by destruct (ws !! wid).
  - rewrite lookup_insert_ne by done.
    by destruct (caches c !! rt) as [ws|].
Qed.

(** *** Reads in terms of [entity] *)

Lemma entity_sweep now rt wid id c :
  entity rt wid id (expireCacheIf now c) =
    if expired now rt c then None else entity rt wid id c.
Proof.
  unfold entity. rewrite expireCacheIf_caches.
  destruct (expired now rt c); [|done]. simpl. by rewrite lookup_empty.
Qed.

(** What [Get] answers: the entity found after the sweep, or a panic when
    the kind has no statistics. *)
Lemma Get_answer now rt wid id c :
  (λ r, r.1) <$> Get now rt wid id c =
    match stats c !! rt with
    | Some _ =>
        Some (default None (entity rt wid id (expireCacheIf now c)),
              bool_decide (is_Some (entity rt wid id (expireCacheIf now c))))
    | None => None
    end.
Proof.
  unfold Get, entity, incr. cbv zeta. rewrite expireCacheIf_stats.
  destruct (caches (expireCacheIf now c) !! rt) as [ws|]; simpl.
  - destruct (ws !! wid) as [es|]; simpl.
    + destruct (es !! id) as [v|]; simpl; by destruct (stats c !! rt).
    + by destruct (stats c !! rt).
  - by destruct (stats c !! rt).
Qed.

(** X1. An entity stored with [Set] is what [Get] of the same kind,
    workspace and id returns, with found=true and one more hit, as long
    as the kind has not expired at the time of the [Get]. *)
Theorem Set_Get_roundtrip now rt wid id data c (s : gmap Z Z) :
  expired now rt c = false →
  stats c !! rt = Some s →
  ∃ c', Get now rt wid id (Set_ rt wid id data c) = Some (data, true, c') ∧
        counter hits rt c' = wrap64 (counter hits rt c + 1) ∧
        counter misses rt c' = counter misses rt c ∧
        entity rt wid id c' = Some data.
Proof.
  intros Hexp Hs.
  destruct (Set_other_fields rt wid id data c) as (Hts & Hst & Httl).
  pose proof (Set_entity_eq rt wid id data c) as Hent.
  assert (Hsw : entity rt wid id (expireCacheIf now (Set_ rt wid id data c))
                = Some data).
  { by rewrite entity_sweep, Set_expired, Hexp. }
  unfold entity in Hsw.
  destruct (caches (expireCacheIf now (Set_ rt wid id data c)) !! rt)
    as [ws|] eqn:Hws; [|done].
  simpl in Hsw. destruct (ws !! wid) as [es|] eqn:Hes; [|done].
  simpl in Hsw.
  destruct (Get_workspace_present now rt wid id (Set_ rt wid id data c)
              ws es s Hws Hes) as (c' & Hget & Hh & Hm).
  { by rewrite Hst. }
  exists c'. rewrite Hget, Hsw. simpl.
  split; [done|]. unfold counter in *. rewrite Hst in Hh, Hm.
  split; [done|]. split; [done|].
  (* the counters aside, the cache is the swept one *)
  unfold Get in Hget. cbv zeta in Hget. rewrite Hws, Hes in Hget.
  destruct (incr_Some hits rt (expireCacheIf now (Set_ rt wid id data c)) s)
    as (c2 & Hc2 & Hca & _).
  { by rewrite expireCacheIf_stats, Hst. }
  rewrite Hc2, Hsw in Hget. simpl in Hget. injection Hget as <-.
  unfold entity. rewrite Hca, Hws. simpl. by rewrite Hes.
Qed.

(** X2. [Set] changes one entity and no other: afterwards the chain of
    lookups finds the stored value at the kind, workspace and id written,
    and at every other place what it found before, whether or not the
    partitions had to be created. *)
Theorem Set_changes_one_entity rt wid id data c rt' wid' id' :
  entity rt' wid' id' (Set_ rt wid id data c) =
    if decide ((rt', wid', id') = (rt, wid, id)) then Some data
    else entity rt' wid' id' c.
Proof.
  case_decide as Heq.
  - injection Heq as -> -> ->. apply Set_entity_eq.
  - by apply Set_entity_ne.
Qed.

(** X3. What [Get] answers for one kind, workspace and id is not changed
    by a [Set] at another place: the data and the found flag are the
    same with and without it (a panic for a kind without statistics
    included). *)
Theorem Set_isolated_from_Get now rt wid id data c rt' wid' id' :
  (rt', wid', id') ≠ (rt, wid, id) →
  (λ r, r.1) <$> Get now rt' wid' id' (Set_ rt wid id data c) =
  (λ r, r.1) <$> Get now rt' wid' id' c.
Proof.
  intros Hne.
  destruct (Set_other_fields rt wid id data c) as (_ & Hst & _).
  rewrite !Get_answer, Hst, !entity_sweep, Set_expired.
  by rewrite Set_entity_ne.
Qed.

(** X4. [Set] leaves hits and misses alone, and the workspace count that
    [Stats] reports grows by one exactly when the kind written had no
    sub-partition for the workspace yet. *)
Theorem Stats_after_Set rt wid id data c rt' :
  Stats rt' (Set_ rt wid id data c) =
    (if decide (rt' = rt ∧ (caches c !! rt ≫= lookup wid) = None)
     then (Stats rt' c).1.1 + 1 else (Stats rt' c).1.1,
     (Stats rt' c).1.2, (Stats rt' c).2).
Proof.
  destruct (Set_other_fields rt wid id data c) as (_ & Hst & _).
  unfold Stats. cbv zeta. rewrite Hst, Set_caches. simpl.
  apply (f_equal (λ n, (n, default 0 (default ∅ (stats c !! rt') !! hits),
                        default 0 (default ∅ (stats c !! rt') !! misses)))).
  destruct (decide (rt' = rt)) as [->|Hrt].
  - rewrite lookup_insert_eq. simpl. rewrite map_size_insert.
    destruct (caches c !! rt) as [ws|]; simpl.
    + destruct (ws !! wid); simpl.
      * rewrite decide_False by (by intros [_ ?]). done.
      * rewrite decide_True by done. lia.
    + rewrite lookup_empty. rewrite decide_True by done.
      rewrite map_size_empty. lia.
  - rewrite lookup_insert_ne by done.
    by rewrite decide_False by (by intros [? _]).
Qed.

(** *** The sweep, again *)

Lemma cache_eq c1 c2 :
  caches c1 = caches c2 → timestamp c1 = timestamp c2 →
  stats c1 = stats c2 → ttl c1 = ttl c2 → c1 = c2.
Proof. destruct c1, c2. simpl. by intros -> -> -> ->. Qed.

Lemma sweep_fold_id now c (m : gmap Z Z) :
  (∀ rt ts, m !! rt = Some ts → (ttl c <? time.Since now ts) = false) →
  map_fold (expire_step now) c m = c.
Proof.
  apply (map_fold_weak_ind
           (λ r m, (∀ rt ts, m !! rt = Some ts →
                      (ttl c <? time.Since now ts) = false) → r = c)).
  - done.
  - intros i x m' r Hi IH Hall.
    rewrite IH.
    + unfold expire_step. by rewrite (Hall i x) by apply lookup_insert_eq.
    + intros rt ts Hrt. apply (Hall rt ts).
      rewrite lookup_insert_ne; [done|]. intros ->. congruence.
Qed.

(** The sweep does nothing when no kind is over the TTL. *)
Lemma expireCacheIf_id now c :
  (∀ rt, expired now rt c = false) → expireCacheIf now c = c.
Proof.
  intros Hall. apply sweep_fold_id. intros rt ts Hts.
  specialize (Hall rt). unfold expired in Hall. by rewrite Hts in Hall.
Qed.

(** X5. Sweeping twice at the same clock reading is sweeping once. *)
Theorem expireCacheIf_idempotent now c :
  expireCacheIf now (expireCacheIf now c) = expireCacheIf now c.
Proof.
  assert (Hexp : ∀ rt, expired now rt (expireCacheIf now c) = true →
                       expired now rt c = true).
  { intros rt. unfold expired at 1.
    rewrite expireCacheIf_timestamp, expireCacheIf_ttl.
    destruct (expired now rt c) eqn:Hc; [done|].
    unfold expired in Hc. by rewrite Hc. }
  apply cache_eq.
  - apply map_eq. intros rt. rewrite expireCacheIf_caches.
    destruct (expired now rt (expireCacheIf now c)) eqn:H1; [|done].
    by rewrite expireCacheIf_caches, (Hexp rt H1).
  - apply map_eq. intros rt. rewrite expireCacheIf_timestamp.
    destruct (expired now rt (expireCacheIf now c)) eqn:H1; [|done].
    by rewrite expireCacheIf_timestamp, (Hexp rt H1).
  - by rewrite !expireCacheIf_stats.
  - by rewrite !expireCacheIf_ttl.
Qed.

(** X6. [GetTTL] after [SetTTL t] is [t]; and a [SetTTL] to a TTL that
    the age of no kind exceeds changes the TTL and nothing else. *)
Theorem SetTTL_GetTTL now t c :
  GetTTL (SetTTL now t c) = t ∧
  ((∀ rt ts, timestamp c !! rt = Some ts → time.Since now ts <= t) →
   SetTTL now t c = with_ttl t c).
Proof.
  split.
  - unfold GetTTL, SetTTL. by rewrite expireCacheIf_ttl.
  - intros Hall. unfold SetTTL. apply expireCacheIf_id.
    intros rt. unfold expired. simpl.
    destruct (timestamp c !! rt) as [ts|] eqn:Hts; [|done].
    apply Z.ltb_ge. by apply (Hall rt).
Qed.

(** X7. A read changes no stored entity unless a kind has expired: when
    no kind is over the TTL at the time of a [Get], the cache afterwards
    has the partitions, timestamps and TTL it had, and of the counters
    only one of the kind read has moved. *)
Theorem Get_keeps_entries now rt wid id c data ok c' :
  (∀ rt', expired now rt' c = false) →
  Get now rt wid id c = Some (data, ok, c') →
  caches c' = caches c ∧ timestamp c' = timestamp c ∧ ttl c' = ttl c ∧
  (∀ k rt', rt' ≠ rt → counter k rt' c' = counter k rt' c) ∧
  (counter hits rt c' = counter hits rt c ∨
   counter misses rt c' = counter misses rt c).
Proof.
  intros Hall Hget. unfold Get in Hget. cbv zeta in Hget.
  rewrite (expireCacheIf_id now c Hall) in Hget.
  assert (∃ k, (k = hits ∨ k = misses) ∧ incr k rt c = Some c')
    as (k & Hk & Hincr).
  { destruct (caches c !! rt) as [ws|]; simpl in Hget.
    - destruct (ws !! wid) as [es|]; simpl in Hget.
      + exists hits. split; [by left|].
        destruct (es !! id); destruct (incr hits rt c); simpl in Hget;
          congruence.
      + exists misses. split; [by right|].
        destruct (incr misses rt c); simpl in Hget; congruence.
    - exists misses. split; [by right|].
      destruct (incr misses rt c); simpl in Hget; congruence. }
  destruct (stats c !! rt) as [s|] eqn:Hs;
    [|by unfold incr in Hincr; rewrite Hs in Hincr].
  destruct (incr_Some k rt c s Hs) as (c2 & Hc2 & Hca & Hts & Httl & _ & Hfr).
  assert (c2 = c') as -> by congruence.
  repeat split; try done.
  - intros k' rt' Hne. apply Hfr. congruence.
  - destruct Hk as [-> | ->]; [right|left]; apply Hfr;
      unfold hits, misses; congruence.
Qed.

(** *** [New] *)

Lemma TypeMap_known rt :
  is_Some (resource.TypeMap !! rt) ↔ 0 <= rt <= 3.
Proof.
  unfold resource.TypeMap, resource.Clients, resource.Projects,
    resource.Tags, resource.TimeEntries.
  rewrite !lookup_insert. repeat case_decide; subst;
    rewrite ?lookup_empty; split; intros Hrt;
    first [lia | by eexists | by destruct Hrt | exfalso; lia].
Qed.

Lemma New_fold now (r0 : ResourcesCache V) (m : gmap Z string) :
  let r := map_fold (New_step now) r0 m in
  ttl r = ttl r0 ∧
  (∀ rt, caches r !! rt =
           match m !! rt with Some _ => Some ∅ | None => caches r0 !! rt end) ∧
  (∀ rt, timestamp r !! rt =
           match m !! rt with
           | Some _ => Some now
           | None => timestamp r0 !! rt
           end) ∧
  (∀ rt, stats r !! rt =
           match m !! rt with Some _ => Some ∅ | None => stats r0 !! rt end).
Proof.
  apply (map_fold_weak_ind
    (λ r m,
       ttl r = ttl r0 ∧
       (∀ rt, caches r !! rt =
          match m !! rt with Some _ => Some ∅ | None => caches r0 !! rt end) ∧
       (∀ rt, timestamp r !! rt =
          match m !! rt with
          | Some _ => Some now
          | None => timestamp r0 !! rt
          end) ∧
       (∀ rt, stats r !! rt =
          match m !! rt with Some _ => Some ∅ | None => stats r0 !! rt end))).
  - repeat split; intros; by rewrite lookup_empty.
  - intros i x m' r Hi (Httl & Hca & Hts & Hst). simpl.
    repeat split; try done; intros rt;
      (destruct (decide (i = rt)) as [->|Hne];
       [by rewrite !lookup_insert_eq
       |rewrite !lookup_insert_ne by done; auto]).
Qed.

(** What [New] makes, kind by kind. *)
Lemma New_lookup now t rt :
  ttl (New (V := V) now t) = (if t =? 0 then 5 * time.Minute else t) ∧
  caches (New (V := V) now t) !! rt
    = (if bool_decide (0 <= rt <= 3) then Some ∅ else None) ∧
  timestamp (New (V := V) now t) !! rt
    = (if bool_decide (0 <= rt <= 3) then Some now else None) ∧
  stats (New (V := V) now t) !! rt
    = (if bool_decide (0 <= rt <= 3) then Some ∅ else None).
Proof.
  unfold New. cbv zeta.
  match goal with
  | |- context [map_fold _ ?r0 _] =>
      destruct (New_fold now r0 resource.TypeMap) as (Httl & Hca & Hts & Hst)
  end.
  rewrite Httl, Hca, Hts, Hst. simpl.
  pose proof (TypeMap_known rt) as Hk.
  destruct (resource.TypeMap !! rt) as [name|].
  - rewrite !bool_decide_eq_true_2; [done|by apply Hk..].
  - rewrite !bool_decide_eq_false_2; [by rewrite !lookup_empty|..];
      intros H; apply Hk in H; by destruct H.
Qed.

(** X8. [New] gives each of the four kinds an empty partition, the
    creation time as timestamp and zero statistics, and gives nothing to
    any other kind number; the TTL is the one asked for, five minutes
    when 0 is asked for. Nothing is found in a new cache. *)
Theorem New_empty now t rt :
  ttl (New (V := V) now t) = (if t =? 0 then 5 * time.Minute else t) ∧
  (0 <= rt <= 3 →
     caches (New (V := V) now t) !! rt = Some ∅ ∧
     timestamp (New (V := V) now t) !! rt = Some now ∧
     Stats rt (New (V := V) now t) = (0, 0, 0) ∧
     ∀ now' wid id,
       (λ r, r.1) <$> Get now' rt wid id (New (V := V) now t)
       = Some (None, false)) ∧
  (¬ 0 <= rt <= 3 →
     caches (New (V := V) now t) !! rt = None ∧
     timestamp (New (V := V) now t) !! rt = None ∧
     stats (New (V := V) now t) !! rt = None).
Proof.
  destruct (New_lookup now t rt) as (Httl & Hca & Hts & Hst).
  split; [done|]. split; intros Hrt.
  - rewrite bool_decide_eq_true_2 in Hca, Hts, Hst by done.
    split; [done|]. split; [done|]. split.
    + unfold Stats. cbv zeta. rewrite Hca, Hst. simpl.
      by rewrite map_size_empty, !lookup_empty.
    + intros now' wid id. rewrite Get_answer, Hst, entity_sweep.
      destruct (expired now' rt (New now t)); [done|].
      unfold entity. rewrite Hca. simpl. by rewrite lookup_empty.
  - by rewrite bool_decide_eq_false_2 in Hca, Hts, Hst by done.
Qed.

(** *** Sequences of calls *)

Lemma Get_incr now rt wid id c r :
  Get now rt wid id c = Some r →
  ∃ k, (k = hits ∨ k = misses) ∧ incr k rt (expireCacheIf now c) = Some r.2.
Proof.
  unfold Get. cbv zeta. intros Hget.
  destruct (caches (expireCacheIf now c) !! rt) as [ws|]; simpl in Hget;
    [destruct (ws !! wid) as [es|]; simpl in Hget|].
  - exists hits. split; [by left|].
    destruct (es !! id);
      destruct (incr hits rt (expireCacheIf now c)); simpl in Hget;
      by simplify_eq.
  - exists misses. split; [by right|].
    destruct (incr misses rt (expireCacheIf now c)); simpl in Hget;
      by simplify_eq.
  - exists misses. split; [by right|].
    destruct (incr misses rt (expireCacheIf now c)); simpl in Hget;
      by simplify_eq.
Qed.

Lemma GetMap_incr now rt wid c r :
  GetMap now rt wid c = Some r →
  ∃ k, (k = hits ∨ k = misses) ∧ incr k rt (expireCacheIf now c) = Some r.2.
Proof.
  unfold GetMap. cbv zeta. intros Hget.
  destruct (caches (expireCacheIf now c) !! rt) as [ws|]; simpl in Hget;
    [destruct (ws !! wid) as [es|]; simpl in Hget|].
  - exists hits. split; [by left|].
    destruct (incr hits rt (expireCacheIf now c)); simpl in Hget;
      by simplify_eq.
  - exists misses. split; [by right|].
    destruct (incr misses rt (expireCacheIf now c)); simpl in Hget;
      by simplify_eq.
  - exists misses. split; [by right|].
    destruct (incr misses rt (expireCacheIf now c)); simpl in Hget;
      by simplify_eq.
Qed.

Lemma GetList_incr now rt wid c r :
  GetList now rt wid c = Some r →
  ∃ k, (k = hits ∨ k = misses) ∧ incr k rt (expireCacheIf now c) = Some r.2.
Proof.
  unfold GetList. cbv zeta. intros Hget.
  destruct (caches (expireCacheIf now c) !! rt) as [ws|]; simpl in Hget;
    [destruct (ws !! wid) as [es|]; simpl in Hget|].
  - exists hits. split; [by left|].
    destruct (incr hits rt (expireCacheIf now c)); simpl in Hget;
      by simplify_eq.
  - exists misses. split; [by right|].
    destruct (incr misses rt (expireCacheIf now c)); simpl in Hget;
      by simplify_eq.
  - exists misses. split; [by right|].
    destruct (incr misses rt (expireCacheIf now c)); simpl in Hget;
      by simplify_eq.
Qed.

(** A read panics exactly when the kind has no statistics. *)
Lemma reads_panic now rt wid id c :
  (Get now rt wid id c = None ↔ stats c !! rt = None) ∧
  (GetMap now rt wid c = None ↔ stats c !! rt = None) ∧
  (GetList now rt wid c = None ↔ stats c !! rt = None).
Proof.
  unfold Get, GetMap, GetList, incr. cbv zeta.
  rewrite expireCacheIf_stats.
  destruct (caches (expireCacheIf now c) !! rt) as [ws|]; simpl;
    [destruct (ws !! wid) as [es|]; simpl; [destruct (es !! id)|]|];
    destruct (stats c !! rt); simpl; by repeat split.
Qed.

(** What one call does to the statistics: a read bumps one counter of
    its kind after the sweep, any other call leaves them alone. *)
Lemma exec_stats o c c' :
  exec o c = Some c' →
  match read_kind o with
  | Some rt =>
      ∃ now k, (k = hits ∨ k = misses) ∧
               incr k rt (expireCacheIf now c) = Some c'
  | None => stats c' = stats c
  end.
Proof.
  destruct o as [now rt wid id|now rt wid|now rt wid|rt wid id data|rt|now t];
    simpl.
  - destruct (Get now rt wid id c) as [r|] eqn:Hr; simpl; [|done].
    intros [= <-]. exists now. by apply Get_incr in Hr.
  - destruct (GetMap now rt wid c) as [r|] eqn:Hr; simpl; [|done].
    intros [= <-]. exists now. by apply GetMap_incr in Hr.
  - destruct (GetList now rt wid c) as [r|] eqn:Hr; simpl; [|done].
    intros [= <-]. exists now. by apply GetList_incr in Hr.
  - intros [= <-]. apply Set_other_fields.
  - by intros [= <-].
  - intros [= <-]. unfold SetTTL. by rewrite expireCacheIf_stats.
Qed.

Lemma incr_keys k rt c c' rt' :
  incr k rt c = Some c' →
  (stats c' !! rt' = None ↔ stats c !! rt' = None).
Proof.
  unfold incr. destruct (stats c !! rt) as [s|] eqn:Hs; [|done].
  intros [= <-]. simpl.
  destruct (decide (rt = rt')) as [->|Hne].
  - rewrite lookup_insert_eq, Hs. done.
  - by rewrite lookup_insert_ne.
Qed.

(** No call gives statistics to a kind or takes them away. *)
Lemma exec_keys o c c' rt :
  exec o c = Some c' →
  (stats c' !! rt = None ↔ stats c !! rt = None).
Proof.
  intros Hexec. apply exec_stats in Hexec.
  destruct (read_kind o) as [rt0|].
  - destruct Hexec as (now & k & _ & Hincr).
    rewrite (incr_keys _ _ _ _ rt Hincr). by rewrite expireCacheIf_stats.
  - by rewrite Hexec.
Qed.

Lemma exec_all_keys os c c' rt :
  exec_all os c = Some c' →
  (stats c' !! rt = None ↔ stats c !! rt = None).
Proof.
  revert c. induction os as [|o os IH]; intros c; simpl.
  - by intros [= <-].
  - destruct (exec o c) as [c1|] eqn:Hexec; simpl; [|done].
    intros Hrest. rewrite (IH _ Hrest). by eapply exec_keys.
Qed.

Lemma exec_all_total os c :
  (∀ o rt, o ∈ os → read_kind o = Some rt → is_Some (stats c !! rt)) →
  is_Some (exec_all os c).
Proof.
  revert c. induction os as [|o os IH]; intros c Hall; simpl; [by eexists|].
  assert (is_Some (exec o c)) as [c1 Hc1].
  { destruct o as [now rt wid id|now rt wid|now rt wid|rt wid id data|rt|now t];
      simpl; try by eexists.
    - destruct (Hall (OpGet now rt wid id) rt) as [s Hs];
        [by left|done|].
      destruct (Get now rt wid id c) eqn:Hget; simpl; [by eexists|].
      apply reads_panic in Hget. congruence.
    - destruct (Hall (OpGetMap now rt wid) rt) as [s Hs];
        [by left|done|].
      destruct (GetMap now rt wid c) eqn:Hget; simpl; [by eexists|].
      apply (reads_panic now rt wid 0) in Hget. congruence.
    - destruct (Hall (OpGetList now rt wid) rt) as [s Hs];
        [by left|done|].
      destruct (GetList now rt wid c) eqn:Hget; simpl; [by eexists|].
      apply (reads_panic now rt wid 0) in Hget. congruence. }
  rewrite Hc1. simpl. apply IH. intros o' rt Hin Hrk.
  destruct (Hall o' rt) as [s Hs]; [by right|done|].
  destruct (stats c1 !! rt) eqn:H1; [by eexists|].
  apply (exec_keys _ _ _ rt Hc1) in H1. congruence.
Qed.

(** X9. A cache made by [New] never fails on the four kinds: whatever
    calls are made, in whatever order and at whatever clock readings, as
    long as the reads among them are of kinds 0 to 3, none panics. *)
Theorem cache_never_fails now t (os : list (op V)) :
  (∀ o rt, o ∈ os → read_kind o = Some rt → 0 <= rt <= 3) →
  is_Some (exec_all os (New now t)).
Proof.
  intros Hall. apply exec_all_total. intros o rt Hin Hrk.
  destruct (New_lookup now t rt) as (_ & _ & _ & ->).
  rewrite bool_decide_eq_true_2 by (by eapply Hall). by eexists.
Qed.

(** X10. A read of a kind number other than 0 to 3 panics, on a new cache
    and after any calls made on it, a [Set] of that very kind included:
    the statistics of such a kind are a nil map, and the read writes a
    counter into it. *)
Theorem unknown_kind_panics now t (os : list (op V)) c rt now' wid id :
  ¬ 0 <= rt <= 3 →
  exec_all os (New now t) = Some c →
  Get now' rt wid id c = None ∧
  GetMap now' rt wid c = None ∧
  GetList now' rt wid c = None.
Proof.
  intros Hrt Hrun.
  assert (Hs : stats c !! rt = None).
  { apply (exec_all_keys _ _ _ rt Hrun).
    destruct (New_lookup now t rt) as (_ & _ & _ & ->).
    by rewrite bool_decide_eq_false_2. }
  destruct (reads_panic now' rt wid id c) as (H1 & H2 & H3).
  split; [by apply H1|]. split; [by apply H2|by apply H3].
Qed.

(** *** Accounting *)

Lemma incr_counter k rt c c' :
  incr k rt c = Some c' →
  counter k rt c' = wrap64 (counter k rt c + 1) ∧
  (∀ k' rt', (k', rt') ≠ (k, rt) → counter k' rt' c' = counter k' rt' c).
Proof.
  intros Hincr.
  destruct (stats c !! rt) as [s|] eqn:Hs;
    [|by unfold incr in Hincr; rewrite Hs in Hincr].
  destruct (incr_Some k rt c s Hs) as (c2 & Hc2 & _ & _ & _ & Hk & Hfr).
  by assert (c2 = c') as -> by congruence.
Qed.

Lemma counter_sweep k rt now c :
  counter k rt (expireCacheIf now c) = counter k rt c.
Proof. unfold counter. by rewrite expireCacheIf_stats. Qed.

Lemma reads_cons rt o (os : list (op V)) :
  reads rt (o :: os) =
    if decide (read_kind o = Some rt) then S (reads rt os) else reads rt os.
Proof. unfold reads. rewrite filter_cons. by case_decide. Qed.

Lemma accounting_from (os : list (op V)) c c' rt :
  exec_all os c = Some c' →
  0 <= counter hits rt c → 0 <= counter misses rt c →
  counter hits rt c + counter misses rt c + Z.of_nat (reads rt os)
    <= max_int64 →
  counter hits rt c' + counter misses rt c'
    = counter hits rt c + counter misses rt c + Z.of_nat (reads rt os) ∧
  counter hits rt c <= counter hits rt c' ∧
  counter misses rt c <= counter misses rt c'.
Proof.
  revert c. induction os as [|o os IH]; intros c; simpl.
  - intros [= <-] _ _ _. unfold reads. simpl. lia.
  - destruct (exec o c) as [c1|] eqn:Hexec; simpl; [|done].
    intros Hrest Hh Hm. rewrite reads_cons.
    pose proof (exec_stats _ _ _ Hexec) as Hst.
    destruct (read_kind o) as [rt0|] eqn:Hrk.
    + destruct Hst as (now & k & Hk & Hincr).
      apply incr_counter in Hincr as [Hbump Hfr].
      rewrite counter_sweep in Hbump.
      case_decide as Hsame.
      * injection Hsame as ->. intros Hle.
        assert (Hother : ∀ k', k' ≠ k → counter k' rt c1 = counter k' rt c).
        { intros k' Hne. rewrite Hfr by congruence. apply counter_sweep. }
        assert (Hk1 : counter k rt c1 = counter k rt c + 1).
        { rewrite Hbump. apply wrap64_id. unfold in_int64.
          rewrite min_int64_eq. destruct Hk as [-> | ->]; lia. }
        destruct Hk as [-> | ->].
        -- pose proof (Hother misses ltac:(done)) as Ho.
           destruct (IH c1 Hrest) as (Hsum & Hh' & Hm'); lia.
        -- pose proof (Hother hits ltac:(done)) as Ho.
           destruct (IH c1 Hrest) as (Hsum & Hh' & Hm'); lia.
      * intros Hle.
        assert (Hsame' : ∀ k', counter k' rt c1 = counter k' rt c).
        { intros k'. rewrite Hfr by congruence. apply counter_sweep. }
        pose proof (Hsame' hits) as Ho1. pose proof (Hsame' misses) as Ho2.
        destruct (IH c1 Hrest) as (Hsum & Hh' & Hm'); lia.
    + rewrite decide_False by done. intros Hle.
      assert (Hsame' : ∀ k', counter k' rt c1 = counter k' rt c).
      { intros k'. unfold counter. by rewrite Hst. }
      pose proof (Hsame' hits) as Ho1. pose proof (Hsame' misses) as Ho2.
      destruct (IH c1 Hrest) as (Hsum & Hh' & Hm'); lia.
Qed.

(** X11. On a cache made by [New], after any calls that did not panic,
    the hits and the misses of a kind add up to the number of reads
    ([Get], [GetMap], [GetList]) of that kind among the calls: every read
    counts once, a write, a clear or a change of TTL counts nothing.
    (The calls are fewer than 2^63, so that no counter wraps.) *)
Theorem hits_and_misses_count_reads now t (os : list (op V)) c rt :
  exec_all os (New now t) = Some c →
  Z.of_nat (length os) <= max_int64 →
  counter hits rt c + counter misses rt c = Z.of_nat (reads rt os) ∧
  0 <= counter hits rt c ∧ 0 <= counter misses rt c.
Proof.
  intros Hrun Hlen.
  assert (H0 : ∀ k, counter k rt (New (V := V) now t) = 0).
  { intros k. unfold counter.
    destruct (New_lookup now t rt) as (_ & _ & _ & ->).
    case_bool_decide; simpl; by rewrite ?lookup_empty. }
  assert (Hreads : (reads rt os ≤ length os)%nat)
    by apply length_filter.
  destruct (accounting_from os _ c rt Hrun) as (Hsum & Hh & Hm);
    rewrite ?H0 in *; lia.
Qed.

(** *** [GetMap] and [GetList] *)

(** X12. [GetMap] and [GetList] find something exactly when the
    workspace has a sub-partition after the sweep. They then return that
    sub-partition, as a map and as the list of its values (as many as
    the map has entries, each value of the map in it), count one hit,
    and leave the same cache; and [Get] of any id answers what that map
    holds for the id. Otherwise both return nothing with found=false and
    count one miss, and [Get] finds no id. *)
Theorem GetMap_GetList_agree now rt wid c (s : gmap Z Z) :
  stats c !! rt = Some s →
  ∃ c',
    match caches (expireCacheIf now c) !! rt ≫= lookup wid with
    | Some es =>
        GetMap now rt wid c = Some (Some es, true, c') ∧
        (∃ l, GetList now rt wid c = Some (l, true, c') ∧
              length l = size es ∧
              ∀ v, v ∈ l ↔ ∃ id, es !! id = Some v) ∧
        counter hits rt c' = wrap64 (counter hits rt c + 1) ∧
        counter misses rt c' = counter misses rt c ∧
        ∀ id, (λ r, r.1) <$> Get now rt wid id c
              = Some (default None (es !! id), bool_decide (is_Some (es !! id)))
    | None =>
        GetMap now rt wid c = Some (None, false, c') ∧
        GetList now rt wid c = Some ([], false, c') ∧
        counter misses rt c' = wrap64 (counter misses rt c + 1) ∧
        counter hits rt c' = counter hits rt c ∧
        ∀ id, (λ r, r.1) <$> Get now rt wid id c = Some (None, false)
    end.
Proof.
  intros Hs.
  assert (Hs' : stats (expireCacheIf now c) !! rt = Some s)
    by (by rewrite expireCacheIf_stats).
  destruct (caches (expireCacheIf now c) !! rt ≫= lookup wid)
    as [es|] eqn:Hes.
  - destruct (incr_Some hits rt _ s Hs') as (c' & Hc' & _ & _ & _ & Hh & Hm).
    exists c'.
    destruct (caches (expireCacheIf now c) !! rt) as [ws|] eqn:Hws;
      [|done]. simpl in Hes.
    unfold GetMap, GetList. cbv zeta. rewrite Hws, Hes, Hc'. simpl.
    split; [done|]. split; [|split; [|split]].
    + eexists. split; [done|]. split.
      * by rewrite length_fmap, length_map_to_list.
      * intros v. rewrite list_elem_of_fmap. split.
        -- intros ([id v'] & -> & Hin). exists id.
           by apply elem_of_map_to_list in Hin.
        -- intros [id Hid]. exists (id, v). split; [done|].
           by apply elem_of_map_to_list.
    + rewrite Hh. apply f_equal. f_equal. apply counter_sweep.
    + rewrite Hm by (unfold hits, misses; congruence). apply counter_sweep.
    + intros id. rewrite Get_answer, Hs. unfold entity. rewrite Hws. simpl.
      by rewrite Hes.
  - destruct (incr_Some misses rt _ s Hs') as (c' & Hc' & _ & _ & _ & Hm & Hh).
    exists c'.
    assert (Hno : ∀ id, entity rt wid id (expireCacheIf now c) = None).
    { intros id. unfold entity.
      destruct (caches (expireCacheIf now c) !! rt) as [ws|]; [|done].
      simpl in *. by rewrite Hes. }
    unfold GetMap, GetList. cbv zeta.
    split; [|split; [|split; [|split]]].
    + destruct (caches (expireCacheIf now c) !! rt) as [ws|]; simpl in *;
        [rewrite Hes|]; by rewrite Hc'.
    + destruct (caches (expireCacheIf now c) !! rt) as [ws|]; simpl in *;
        [rewrite Hes|]; by rewrite Hc'.
    + rewrite Hm. apply f_equal. f_equal. apply counter_sweep.
    + rewrite Hh by (unfold hits, misses; congruence). apply counter_sweep.
    + intros id. by rewrite Get_answer, Hs, Hno.
Qed.

(** *** [Clear] *)

(** X22. After [Clear] of a kind nothing of that kind is found, whatever
    the clock reading of the read: [Get] answers (nil, false) for every
    workspace and id, and [Stats] reports no workspace. What [Get]
    answers for any other kind is what it answers without the [Clear]. *)
Theorem Clear_then_Get rt c (s : gmap Z Z) :
  stats c !! rt = Some s →
  (Stats rt (Clear rt c)).1.1 = 0 ∧
  (∀ now wid id,
     (λ r, r.1) <$> Get now rt wid id (Clear rt c) = Some (None, false)) ∧
  (∀ now rt' wid id, rt' ≠ rt →
     (λ r, r.1) <$> Get now rt' wid id (Clear rt c)
     = (λ r, r.1) <$> Get now rt' wid id c).
Proof.
  intros Hs. split; [|split].
  - unfold Stats, Clear. simpl. rewrite lookup_insert_eq. simpl.
    by rewrite map_size_empty.
  - intros now wid id. rewrite Get_answer. simpl. rewrite Hs.
    rewrite entity_sweep.
    destruct (expired now rt (Clear rt c)); [done|].
    unfold entity, Clear. simpl. rewrite lookup_insert_eq. simpl.
    by rewrite lookup_empty.
  - intros now rt' wid id Hne. rewrite !Get_answer. simpl.
    rewrite !entity_sweep.
    change (expired now rt' (Clear rt c)) with (expired now rt' c).
    assert (Hent : entity rt' wid id (Clear rt c) = entity rt' wid id c).
    { unfold entity, Clear. simpl. by rewrite lookup_insert_ne by done. }
    by rewrite Hent.
Qed.

End Laws.

(** X1, at work: on a cache made at clock 0 with the default TTL. *)
Lemma Set_Get_roundtrip_witness :
  ∃ c' : ResourcesCache Z, Get 1000 resource.Tags 4 5
          (Set_ resource.Tags 4 5 (Some 9) (New (V := Z) 0 0))
        = Some (Some 9, true, c').
Proof.
  destruct (Set_Get_roundtrip (V := Z) 1000 resource.Tags 4 5 (Some 9)
              (New 0 0) ∅) as (c' & Hget & _); [by vm_compute..|].
  by exists c'.
Defined.

(** X3, at work: storing project 1 of workspace 1 does not make project
    2 of that workspace appear. *)
Lemma Set_isolated_from_Get_witness :
  (λ r, r.1) <$> Get 8 resource.Projects 1 2
     (Set_ resource.Projects 1 1 (Some 42) (New (V := Z) 7 0))
  = Some (None, false).
Proof.
  rewrite (Set_isolated_from_Get (V := Z) 8 resource.Projects 1 1 (Some 42)
             (New 7 0) resource.Projects 1 2) by done.
  by vm_compute.
Defined.

(** X6, at work: raising the TTL of a new cache. *)
Lemma SetTTL_GetTTL_witness :
  SetTTL 5 1000 (New (V := Z) 5 10) = with_ttl 1000 (New 5 10).
Proof.
  apply (SetTTL_GetTTL (V := Z) 5 1000 (New 5 10)).
  intros rt ts. destruct (New_lookup (V := Z) 5 10 rt) as (_ & _ & -> & _).
  case_bool_decide; [|done]. intros [= <-]. by vm_compute.
Defined.

(** X7, at work: a [Get] right after creation. *)
Lemma Get_keeps_entries_witness :
  ∃ c' : ResourcesCache Z,
    Get 5 resource.Clients 1 1 (New 5 0) = Some (None, false, c') ∧
    caches c' = caches (New (V := Z) 5 0).
Proof.
  assert (Hget : ∃ c' : ResourcesCache Z,
            Get 5 resource.Clients 1 1 (New 5 0) = Some (None, false, c'))
    by (eexists; by vm_compute).
  destruct Hget as [c' Hget]. exists c'. split; [done|].
  refine (proj1 (Get_keeps_entries 5 resource.Clients 1 1 (New 5 0)
                   None false c' _ Hget)).
  intros rt. unfold expired.
  destruct (New_lookup (V := Z) 5 0 rt) as (_ & _ & -> & _).
  case_bool_decide; [|done]. by vm_compute.
Defined.

(** X8, at work: the tags of a new cache. *)
Lemma New_empty_witness :
  Stats resource.Tags (New (V := Z) 5 0) = (0, 0, 0).
Proof.
  refine (proj1 (proj2 (proj2 (proj1 (proj2
            (New_empty (V := Z) 5 0 resource.Tags)) _)))).
  by vm_compute.
Defined.

(** X9, at work. *)
Lemma cache_never_fails_witness :
  is_Some (exec_all [OpSet resource.Tags 1 1 (Some 3);
                     OpGet 9 resource.Tags 1 1; OpClear resource.Tags;
                     OpGetList 9 resource.Tags 1]
             (New (V := Z) 5 0)).
Proof.
  apply (cache_never_fails (V := Z) 5 0).
  intros o rt Hin Hrk.
  repeat (apply elem_of_cons in Hin as [->|Hin];
          [simpl in Hrk;
           first [done | injection Hrk as <-; by vm_compute]|]).
  by apply elem_of_nil in Hin.
Defined.

(** X10, at work: kind 7 is written, then read. *)
Lemma unknown_kind_panics_witness :
  Get 9 7 1 1 (Set_ 7 1 1 (Some 3) (New (V := Z) 5 0)) = None.
Proof.
  refine (proj1 (unknown_kind_panics (V := Z) 5 0 [OpSet 7 1 1 (Some 3)]
                   _ 7 9 1 1 _ eq_refl)).
  lia.
Defined.

(** X11, at work: two reads of tags, one of them a hit. *)
Lemma hits_and_misses_count_reads_witness :
  ∃ c : ResourcesCache Z,
    exec_all [OpGet 6 resource.Tags 1 1; OpSet resource.Tags 1 1 (Some 3);
              OpGet 9 resource.Tags 1 1] (New 5 0) = Some c ∧
    counter hits resource.Tags c + counter misses resource.Tags c = 2.
Proof.
  assert (Hrun : ∃ c : ResourcesCache Z,
            exec_all [OpGet 6 resource.Tags 1 1;
                      OpSet resource.Tags 1 1 (Some 3);
                      OpGet 9 resource.Tags 1 1] (New 5 0) = Some c)
    by (eexists; by vm_compute).
  destruct Hrun as [c Hrun]. exists c. split; [done|].
  refine (proj1 (hits_and_misses_count_reads (V := Z) 5 0 _ c resource.Tags
                   Hrun _)).
  by vm_compute.
Defined.

(** X12, at work: the one tag of workspace 1. *)
Lemma GetMap_GetList_agree_witness :
  ∃ c' : ResourcesCache Z,
    GetMap 9 resource.Tags 1 (Set_ resource.Tags 1 1 (Some 3) (New 5 0))
    = Some (Some {[ 1 := Some 3 ]}, true, c').
Proof.
  destruct (GetMap_GetList_agree (V := Z) 9 resource.Tags 1
              (Set_ resource.Tags 1 1 (Some 3) (New 5 0)) ∅ eq_refl)
    as [c' H].
  exists c'. exact (proj1 H).
Defined.

(** X22, at work: a project is stored, then the projects are cleared. *)
Lemma Clear_then_Get_witness :
  (λ r, r.1) <$> Get 9 resource.Projects 1 1
     (Clear resource.Projects
        (Set_ resource.Projects 1 1 (Some 42) (New (V := Z) 7 0)))
  = Some (None, false).
Proof.
  refine (proj1 (proj2 (Clear_then_Get (V := Z) resource.Projects
            (Set_ resource.Projects 1 1 (Some 42) (New 7 0)) ∅ _)) 9 1 1).
  by vm_compute.
Defined.

End cache_laws.

(** ** The time entry *)
Module toggl_facts.
Import toggl.

(** *** The store *)

Lemma in_range_spec z : in_range z = true ↔ in_int64 z.
Proof. unfold in_range, in_int64. rewrite andb_true_iff. lia. Qed.

Lemma deref_new_time_old st v p t :
  deref st p = Some t → deref (new_time v st).2 p = Some t.
Proof.
  destruct p as [l|]; simpl; [|done].
  intros H. by apply lookup_app_l_Some.
Qed.

Lemma deref_new_time_new st v :
  deref (new_time v st).2 (Some (new_time v st).1) = Some v.
Proof. simpl. by apply list_lookup_middle. Qed.

Lemma seconds_exact d :
  in_int64 (d * time.Second) → seconds d = d * time.Second.
Proof. apply wrap64_id. Qed.

Lemma Sub_exact t u : in_int64 (t - u) → time.Sub t u = t - u.
Proof. apply sat64_id. Qed.

(** *** The mutators, one call at a time *)

(** [SetStartTime] first stores the new start; whether the entry runs
    does not depend on that. *)
Local Ltac unfold_SetStartTime e st :=
  unfold SetStartTime; simpl;
  change (IsRunning (set_Start (Some (length (times st))) e))
    with (IsRunning e).

Lemma same_metadata_refl e : same_metadata e e.
Proof. by repeat split. Qed.

(** C5. On a running entry [SetDuration] and [SetStopTime] return the
    error "TimeEntry must be stopped" and leave the entry and the store as
    they were. On a stopped entry whose start instant [t0] is there,
    [SetDuration d] returns no error, sets the duration to [d] and the
    stop instant to [t0] plus [d] seconds (the [Duration]
    [time.Duration(d) * time.Second], which is [d * 10^9] nanoseconds
    whenever that fits 64 bits); [SetStopTime s] returns no error, sets
    the stop instant to [s] and the duration to the whole seconds of
    [s.Sub(t0)] (of [s - t0] whenever that fits a [Duration]). Neither
    moves the start instant or touches the other fields. *)
Theorem SetDuration_SetStopTime_spec (e : TimeEntry) (st : store) (d s : Z) :
  (IsRunning e = true →
     SetDuration d e st
       = Some (Some "TimeEntry must be stopped"%string, e, st) ∧
     SetStopTime s e st
       = Some (Some "TimeEntry must be stopped"%string, e, st)) ∧
  (IsRunning e = false → ∀ t0, deref st (Start e) = Some t0 →
     (∃ e' st', SetDuration d e st = Some (None, e', st') ∧
        Duration e' = d ∧
        deref st' (Stop e') = Some (time.Add t0 (seconds d)) ∧
        (in_int64 (d * time.Second) →
           deref st' (Stop e') = Some (t0 + d * time.Second)) ∧
        Start e' = Start e ∧ deref st' (Start e') = Some t0 ∧
        same_metadata e e') ∧
     (∃ e' st', SetStopTime s e st = Some (None, e', st') ∧
        deref st' (Stop e') = Some s ∧
        Duration e' = Z.quot (time.Sub s t0) time.Second ∧
        (in_int64 (s - t0) → Duration e' = Z.quot (s - t0) time.Second) ∧
        Start e' = Start e ∧ deref st' (Start e') = Some t0 ∧
        same_metadata e e')).
Proof.
  split.
  - intros Hrun. unfold SetDuration, SetStopTime. by rewrite Hrun.
  - intros Hrun t0 Hstart. unfold SetDuration, SetStopTime. rewrite Hrun.
    destruct (Start e) as [l|] eqn:Hl; [|done]. simpl in Hstart.
    split.
    + simpl. rewrite Hl; simpl. rewrite Hstart; simpl.
      do 2 eexists. split; [done|]. simpl.
      repeat split; try done.
      * by rewrite list_lookup_middle.
      * intros Hfit. rewrite list_lookup_middle by done.
        by rewrite seconds_exact.
      * rewrite Hl; simpl. by apply lookup_app_l_Some.
    + simpl. rewrite Hl; simpl.
      rewrite (lookup_app_l_Some _ _ _ _ Hstart); simpl.
      do 2 eexists. split; [done|]. simpl.
      repeat split; try done.
      * by rewrite list_lookup_middle.
      * intros Hfit. by rewrite Sub_exact.
      * rewrite Hl; simpl. by apply lookup_app_l_Some.
Qed.

(** C5, at work: a stopped entry that started at second 100 and lasted
    60 seconds is given a duration of 90 seconds. *)
Lemma SetDuration_SetStopTime_spec_witness :
  let st := {| times := [100000000000; 160000000000]; arrays := [] |} in
  let e := set_Duration 60 (set_Stop (Some 1%nat)
             (set_Start (Some 0%nat) zero_TimeEntry)) in
  ∃ e' st', SetDuration 90 e st = Some (None, e', st') ∧
            Duration e' = 90 ∧
            deref st' (Stop e') = Some 190000000000.
Proof.
  cbv zeta.
  destruct (SetDuration_SetStopTime_spec
              (set_Duration 60 (set_Stop (Some 1%nat)
                 (set_Start (Some 0%nat) zero_TimeEntry)))
              {| times := [100000000000; 160000000000]; arrays := [] |}
              90 0) as [_ Hstopped].
  destruct (Hstopped eq_refl 100000000000 eq_refl)
    as [(e' & st' & Hcall & Hd & _ & Hstop & _) _].
  exists e', st'. split; [exact Hcall|]. split; [exact Hd|].
  apply Hstop. by vm_compute.
Defined.

(** C6. [SetStartTime] has no error result, and where it returns, the
    start instant is [start] and the fields other than start, stop and
    duration are as before. On a running entry it returns and changes
    nothing else: duration and stop pointer are the old ones and the
    stop instant keeps its value. On a stopped entry with [updateEnd] it
    returns, keeps the duration and sets the stop instant to [start]
    plus the duration in seconds. On a stopped entry without
    [updateEnd], the stop instant [t1] being there, it returns, keeps the
    stop instant and sets the duration to [t1.Unix() - start.Unix()],
    the distance in whole seconds. *)
Theorem SetStartTime_spec (e : TimeEntry) (st : store) (start : Z)
    (updateEnd : bool) :
  (∀ err e' st',
     mutate (CallSetStartTime start updateEnd) e st = Some (err, e', st') →
     err = None ∧ deref st' (Start e') = Some start ∧
     same_metadata e e') ∧
  (IsRunning e = true →
     ∃ e' st', SetStartTime start updateEnd e st = Some (e', st') ∧
       deref st' (Start e') = Some start ∧
       Duration e' = Duration e ∧ Stop e' = Stop e ∧
       (∀ t1, deref st (Stop e) = Some t1 →
              deref st' (Stop e') = Some t1)) ∧
  (IsRunning e = false → updateEnd = true →
     ∃ e' st', SetStartTime start updateEnd e st = Some (e', st') ∧
       deref st' (Start e') = Some start ∧
       Duration e' = Duration e ∧
       deref st' (Stop e') =
         Some (time.Add start (seconds (Duration e))) ∧
       (in_int64 (Duration e * time.Second) →
          deref st' (Stop e') = Some (start + Duration e * time.Second))) ∧
  (IsRunning e = false → updateEnd = false →
     ∀ t1, deref st (Stop e) = Some t1 →
     ∃ e' st', SetStartTime start updateEnd e st = Some (e', st') ∧
       deref st' (Start e') = Some start ∧
       Stop e' = Stop e ∧ deref st' (Stop e') = Some t1 ∧
       Duration e' = wrap64 (time.Unix t1 - time.Unix start) ∧
       (in_int64 (time.Unix t1 - time.Unix start) →
          Duration e' = time.Unix t1 - time.Unix start)).
Proof.
  split; [|split; [|split]].
  - intros err e' st'. unfold mutate. unfold_SetStartTime e st.
    destruct (IsRunning e); simpl.
    + intros [= <- <- <-]. simpl.
      split; [done|]. split; [by apply list_lookup_middle|].
      by repeat split.
    + destruct updateEnd; simpl.
      * intros [= <- <- <-]. simpl.
        split; [done|]. split; [|by repeat split].
        apply lookup_app_l_Some. by apply list_lookup_middle.
      * destruct (Stop e) as [q|]; simpl; [|done].
        destruct ((times st ++ [start]) !! q) as [t1|]; simpl; [|done].
        rewrite list_lookup_middle by done. simpl.
        intros [= <- <- <-]. simpl.
        split; [done|]. split; [by apply list_lookup_middle|].
        by repeat split.
  - intros Hrun. unfold_SetStartTime e st.
    rewrite Hrun. simpl. do 2 eexists. split; [done|]. simpl.
    split; [by apply list_lookup_middle|].
    repeat split; try done.
    intros t1 Ht1. destruct (Stop e); simpl in *; [|done].
    by apply lookup_app_l_Some.
  - intros Hrun ->. unfold_SetStartTime e st.
    rewrite Hrun. simpl. do 2 eexists. split; [done|]. simpl.
    split; [apply lookup_app_l_Some; by apply list_lookup_middle|].
    split; [done|].
    split; [by apply list_lookup_middle|].
    intros Hfit. rewrite list_lookup_middle by done.
    by rewrite seconds_exact.
  - intros Hrun -> t1 Ht1. unfold_SetStartTime e st.
    rewrite Hrun. simpl.
    destruct (Stop e) as [q|] eqn:Hq; simpl in *; [|done].
    rewrite (lookup_app_l_Some _ _ _ _ Ht1). simpl.
    rewrite list_lookup_middle by done. simpl.
    do 2 eexists. split; [done|]. simpl.
    split; [by apply list_lookup_middle|].
    split; [done|].
    rewrite Hq; simpl.
    split; [by apply lookup_app_l_Some|].
    split; [done|].
    intros Hfit. by rewrite wrap64_id.
Qed.

(** C6, at work: the start of a stopped entry (second 100 to second 160)
    is moved to second 130 with the stop instant held. *)
Lemma SetStartTime_spec_witness :
  let st := {| times := [100000000000; 160000000000]; arrays := [] |} in
  let e := set_Duration 60 (set_Stop (Some 1%nat)
             (set_Start (Some 0%nat) zero_TimeEntry)) in
  ∃ e' st', SetStartTime 130000000000 false e st = Some (e', st') ∧
            deref st' (Stop e') = Some 160000000000 ∧
            Duration e' = 30.
Proof.
  cbv zeta.
  destruct (SetStartTime_spec
              (set_Duration 60 (set_Stop (Some 1%nat)
                 (set_Start (Some 0%nat) zero_TimeEntry)))
              {| times := [100000000000; 160000000000]; arrays := [] |}
              130000000000 false) as (_ & _ & _ & Hheld).
  destruct (Hheld eq_refl eq_refl 160000000000 eq_refl)
    as (e' & st' & Hcall & _ & _ & Hstop & _ & Hd).
  exists e', st'. split; [exact Hcall|]. split; [exact Hstop|].
  apply Hd. by vm_compute.
Defined.

(** C10. On a stopped entry the mutators dereference an instant without
    a nil check: [SetDuration] and [SetStopTime] panic when the start
    pointer is nil, [SetStartTime] without [updateEnd] panics when the
    stop pointer is nil; none of them returns an error there. With the
    instant they need in place they return, [SetDuration] and
    [SetStopTime] with a nil error; [SetStartTime] with [updateEnd] needs
    no instant and always returns. *)
Theorem nil_instant_panics (e : TimeEntry) (st : store) :
  IsRunning e = false →
  (Start e = None →
     ∀ d s, SetDuration d e st = None ∧ SetStopTime s e st = None) ∧
  (Stop e = None → ∀ s, SetStartTime s false e st = None) ∧
  (∀ t0, deref st (Start e) = Some t0 →
     ∀ d s, (∃ e' st', SetDuration d e st = Some (None, e', st')) ∧
            (∃ e' st', SetStopTime s e st = Some (None, e', st'))) ∧
  (∀ t1, deref st (Stop e) = Some t1 →
     ∀ s, is_Some (SetStartTime s false e st)) ∧
  (∀ s, is_Some (SetStartTime s true e st)).
Proof.
  intros Hrun. split; [|split; [|split; [|split]]].
  - intros Hnil d s. split.
    + unfold SetDuration. rewrite Hrun. simpl. by rewrite Hnil.
    + unfold SetStopTime. rewrite Hrun. simpl. by rewrite Hnil.
  - intros Hnil s. unfold_SetStartTime e st.
    rewrite Hrun. simpl. by rewrite Hnil.
  - intros t0 Ht0 d s.
    destruct (Start e) as [l|] eqn:Hl; [|done]. simpl in Ht0.
    split.
    + unfold SetDuration. rewrite Hrun. simpl. rewrite Hl. simpl.
      rewrite Ht0. simpl. by do 2 eexists.
    + unfold SetStopTime. rewrite Hrun. simpl. rewrite Hl. simpl.
      rewrite (lookup_app_l_Some _ _ _ _ Ht0). simpl. by do 2 eexists.
  - intros t1 Ht1 s. unfold_SetStartTime e st.
    rewrite Hrun. simpl.
    destruct (Stop e) as [q|]; [|done]. simpl in *.
    rewrite (lookup_app_l_Some _ _ _ _ Ht1). simpl.
    by rewrite list_lookup_middle.
  - intros s. unfold_SetStartTime e st.
    by rewrite Hrun.
Qed.

(** C10, at work: the zero entry [TimeEntry{}] is stopped and has no
    instants. *)
Lemma nil_instant_panics_witness :
  let st := {| times := []; arrays := [] |} in
  SetDuration 5 zero_TimeEntry st = None ∧
  SetStopTime 5 zero_TimeEntry st = None ∧
  SetStartTime 5 false zero_TimeEntry st = None ∧
  is_Some (SetStartTime 5 true zero_TimeEntry st).
Proof.
  cbv zeta.
  destruct (nil_instant_panics zero_TimeEntry
              {| times := []; arrays := [] |} eq_refl)
    as (Hstart & Hstop & _ & _ & Hup).
  destruct (Hstart eq_refl 5 5) as [H1 H2].
  split; [exact H1|]. split; [exact H2|].
  split; [exact (Hstop eq_refl 5)|]. exact (Hup 5).
Defined.

(** *** Sequences of calls *)

Lemma run_app ms1 ms2 e st :
  run (ms1 ++ ms2) e st =
    match run ms1 e st with
    | Some (e1, st1) => run ms2 e1 st1
    | None => None
    end.
Proof.
  revert e st. induction ms1 as [|m ms1 IH]; intros e st; simpl; [done|].
  destruct (mutate m e st) as [[[[err|] e1] st1]|]; auto.
Qed.

Lemma on_stopped_app ms1 ms2 e st e1 st1 :
  on_stopped (ms1 ++ ms2) e st = true →
  run ms1 e st = Some (e1, st1) →
  on_stopped ms1 e st = true ∧ on_stopped ms2 e1 st1 = true.
Proof.
  revert e st. induction ms1 as [|m ms1 IH]; intros e st; simpl.
  - by intros ? [= -> ->].
  - destruct (mutate m e st) as [[[[err|] e2] st2]|]; try done.
    intros [Hhd Htl]%andb_true_iff Hrun.
    destruct (IH _ _ Htl Hrun) as [H1 H2].
    by rewrite Hhd, H1, H2.
Qed.

(** A successful call leaves both instants in place. *)
Lemma mutate_present m e st e' st' :
  instants_present e st →
  mutate m e st = Some (None, e', st') →
  instants_present e' st'.
Proof.
  intros [[t0 Ht0] [t1 Ht1]].
  destruct (Start e) as [l|] eqn:Hl; [|done].
  destruct (Stop e) as [q|] eqn:Hq; [|done].
  simpl in Ht0, Ht1.
  destruct m as [start updateEnd|stop|d]; simpl.
  - unfold_SetStartTime e st.
    destruct (IsRunning e); simpl.
    + intros [= <- <-]. split; simpl.
      * rewrite list_lookup_middle by done. by eexists.
      * rewrite Hq. simpl. rewrite (lookup_app_l_Some _ _ _ _ Ht1).
        by eexists.
    + destruct updateEnd; simpl.
      * intros [= <- <-]. split; simpl.
        -- erewrite lookup_app_l_Some; [by eexists|].
           by apply list_lookup_middle.
        -- rewrite list_lookup_middle by done. by eexists.
      * rewrite Hq. simpl. rewrite (lookup_app_l_Some _ _ _ _ Ht1). simpl.
        rewrite list_lookup_middle by done. simpl.
        intros [= <- <-]. split; simpl.
        -- rewrite list_lookup_middle by done. by eexists.
        -- rewrite Hq. simpl. rewrite (lookup_app_l_Some _ _ _ _ Ht1).
           by eexists.
  - unfold SetStopTime. destruct (IsRunning e); [done|]. simpl.
    rewrite Hl. simpl. rewrite (lookup_app_l_Some _ _ _ _ Ht0). simpl.
    intros [= <- <-]. split; simpl.
    + rewrite Hl. simpl. rewrite (lookup_app_l_Some _ _ _ _ Ht0).
      by eexists.
    + rewrite list_lookup_middle by done. by eexists.
  - unfold SetDuration. destruct (IsRunning e); [done|]. simpl.
    rewrite Hl. simpl. rewrite Ht0. simpl.
    intros [= <- <-]. split; simpl.
    + rewrite Hl. simpl. rewrite (lookup_app_l_Some _ _ _ _ Ht0).
      by eexists.
    + rewrite list_lookup_middle by done. by eexists.
Qed.

Lemma run_present ms e st e' st' :
  instants_present e st →
  run ms e st = Some (e', st') →
  instants_present e' st'.
Proof.
  revert e st. induction ms as [|m ms IH]; intros e st Hp; simpl.
  - by intros [= <- <-].
  - destruct (mutate m e st) as [[[[err|] e1] st1]|] eqn:Hm; try done.
    apply IH. by eapply mutate_present.
Qed.

(** One successful call on a stopped entry, its arithmetic in range,
    re-establishes the identity. *)
Lemma mutate_identity m e st e' st' :
  instants_present e st →
  IsRunning e = false →
  no_overflow m e st = true →
  mutate m e st = Some (None, e', st') →
  duration_identity e' st' = true.
Proof.
  intros [[t0 Ht0] [t1 Ht1]] Hrun.
  destruct (Start e) as [l|] eqn:Hl; [|done].
  destruct (Stop e) as [q|] eqn:Hq; [|done].
  simpl in Ht0, Ht1. unfold duration_identity.
  destruct m as [start updateEnd|stop|d]; simpl.
  - unfold_SetStartTime e st.
    rewrite Hrun. simpl. destruct updateEnd; simpl.
    + intros Hfit%in_range_spec [= <- <-]. simpl.
      erewrite lookup_app_l_Some; [|by apply list_lookup_middle].
      rewrite list_lookup_middle by done.
      rewrite seconds_exact by done.
      unfold time.Add, time.Second. lia.
    + rewrite Hq. simpl. rewrite Ht1, (lookup_app_l_Some _ _ _ _ Ht1). simpl.
      rewrite list_lookup_middle by done. simpl.
      intros Hfit%in_range_spec [= <- <-]. simpl.
      rewrite list_lookup_middle by done.
      rewrite Hq. simpl. rewrite (lookup_app_l_Some _ _ _ _ Ht1).
      rewrite wrap64_id by done.
      unfold time.Unix, time.Second. apply Z.ltb_lt.
      pose proof (Z.div_mod t1 1000000000 ltac:(lia)) as Hd1.
      pose proof (Z.mod_pos_bound t1 1000000000 ltac:(lia)) as Hb1.
      pose proof (Z.div_mod start 1000000000 ltac:(lia)) as Hd0.
      pose proof (Z.mod_pos_bound start 1000000000 ltac:(lia)) as Hb0.
      lia.
  - unfold SetStopTime. rewrite Hrun. simpl.
    rewrite Hl. simpl. rewrite Ht0, (lookup_app_l_Some _ _ _ _ Ht0). simpl.
    intros Hfit%in_range_spec [= <- <-]. simpl.
    rewrite Hl. simpl. rewrite (lookup_app_l_Some _ _ _ _ Ht0).
    rewrite list_lookup_middle by done.
    rewrite Sub_exact by done.
    unfold time.Second. apply Z.ltb_lt.
    pose proof (Z.quot_rem' (stop - t0) 1000000000) as Hqr.
    pose proof (Z.rem_bound_abs (stop - t0) 1000000000) as Hb.
    lia.
  - unfold SetDuration. rewrite Hrun. simpl.
    rewrite Hl. simpl. rewrite Ht0. simpl.
    intros Hfit%in_range_spec [= <- <-]. simpl.
    rewrite Hl. simpl. rewrite (lookup_app_l_Some _ _ _ _ Ht0).
    rewrite list_lookup_middle by done.
    rewrite seconds_exact by done.
    unfold time.Add, time.Second. lia.
Qed.

(** For instants on whole seconds the identity is an equality. *)
Lemma duration_identity_exact e st t0 t1 :
  duration_identity e st = true →
  deref st (Start e) = Some t0 → deref st (Stop e) = Some t1 →
  (time.Second | t0) → (time.Second | t1) →
  Duration e * time.Second = t1 - t0.
Proof.
  unfold duration_identity. intros H H0 H1. rewrite H0, H1 in H.
  revert H. unfold time.Second. intros H%Z.ltb_lt [a ->] [b ->]. lia.
Qed.

(** C4, the claim as stated fails: an entry from second 0 to second 10
    is given the duration -5 by [SetDuration], which succeeds and moves
    the stop instant to second -5; the entry now counts as running, so the
    next call, [SetStartTime] to second 100, succeeds and moves the start
    only. The duration is -5, and stop minus start is -105 seconds. *)
Lemma negative_duration_breaks_identity :
  let st := {| times := [0; 10000000000]; arrays := [] |} in
  let e := set_Duration 10 (set_Stop (Some 1%nat)
             (set_Start (Some 0%nat) zero_TimeEntry)) in
  IsRunning e = false ∧ duration_identity e st = true ∧
  ∃ e' st',
    run [CallSetDuration (-5); CallSetStartTime 100000000000 true] e st
      = Some (e', st') ∧
    Duration e' = -5 ∧
    deref st' (Start e') = Some 100000000000 ∧
    deref st' (Stop e') = Some (-5000000000) ∧
    duration_identity e' st' = false.
Proof.
  cbv zeta. split; [by vm_compute|]. split; [by vm_compute|].
  do 2 eexists. split; [by vm_compute|]. repeat split; by vm_compute.
Qed.

(** C4, amended. Take an entry with both instants in place and a sequence
    of calls of [SetStartTime], [SetStopTime] and [SetDuration] that all
    succeed, each of them made while the entry is stopped (its duration
    not negative) and with its 64-bit arithmetic in range. Then after
    every call of the sequence the duration is stop minus start in whole
    seconds: less than a second away from it, and equal to it when both
    instants are on whole seconds. *)
Theorem duration_identity_on_stopped (e : TimeEntry) (st : store)
    (pre post : list mutation) :
  instants_present e st →
  pre ≠ [] →
  on_stopped (pre ++ post) e st = true →
  is_Some (run (pre ++ post) e st) →
  ∃ e1 st1,
    run pre e st = Some (e1, st1) ∧
    duration_identity e1 st1 = true ∧
    (∀ t0 t1,
       deref st1 (Start e1) = Some t0 → deref st1 (Stop e1) = Some t1 →
       (time.Second | t0) → (time.Second | t1) →
       Duration e1 * time.Second = t1 - t0).
Proof.
  intros Hp Hne Hon [[e2 st2] Hrun].
  rewrite run_app in Hrun.
  destruct (run pre e st) as [[e1 st1]|] eqn:Hpre; [|done].
  exists e1, st1. split; [done|].
  assert (Hid : duration_identity e1 st1 = true).
  { destruct (on_stopped_app _ _ _ _ _ _ Hon Hpre) as [Hon1 _].
    clear Hon Hrun. destruct pre as [|m pre' _] using rev_ind; [done|].
    rewrite run_app in Hpre.
    destruct (run pre' e st) as [[e0 st0]|] eqn:Hpre'; [|done].
    destruct (on_stopped_app _ _ _ _ _ _ Hon1 Hpre') as [_ Hm].
    simpl in Hpre, Hm.
    destruct (mutate m e0 st0) as [[[[err|] e3] st3]|] eqn:Hmut; try done.
    injection Hpre as -> ->.
    apply andb_true_iff in Hm as [Hm _].
    apply andb_true_iff in Hm as [Hstopped Hfit].
    eapply mutate_identity; [| |exact Hfit|exact Hmut].
    - by eapply run_present.
    - by destruct (IsRunning e0). }
  split; [done|]. intros t0 t1. by apply duration_identity_exact.
Qed.

(** C4 amended, at work: an entry from second 0 to second 10 has its
    duration set to 30 seconds, then its start moved to second 5 with
    the stop instant held; the identity holds after the first call. *)
Lemma duration_identity_on_stopped_witness :
  let st := {| times := [0; 10000000000]; arrays := [] |} in
  let e := set_Duration 10 (set_Stop (Some 1%nat)
             (set_Start (Some 0%nat) zero_TimeEntry)) in
  ∃ e1 st1,
    run [CallSetDuration 30] e st = Some (e1, st1) ∧
    duration_identity e1 st1 = true.
Proof.
  cbv zeta.
  destruct (duration_identity_on_stopped
              (set_Duration 10 (set_Stop (Some 1%nat)
                 (set_Start (Some 0%nat) zero_TimeEntry)))
              {| times := [0; 10000000000]; arrays := [] |}
              [CallSetDuration 30] [CallSetStartTime 5000000000 false])
    as (e1 & st1 & Hrun & Hid & _).
  - split; by eexists.
  - done.
  - by vm_compute.
  - by eexists; vm_compute.
  - by exists e1, st1.
Defined.

(** *** Slices *)

Lemma slice_val_length st s :
  wf_slice st s → length (slice_val st s) = s_len s.
Proof.
  intros [Hlen Hcap]. unfold slice_val.
  rewrite length_take, length_drop. lia.
Qed.

(** Writing [vs] at position [pos] of an array, read back from [off]. *)
Lemma write_read (old vs : list string) (off len : nat) :
  (off + len + length vs ≤ length old)%nat →
  take (len + length vs)
    (drop off (take (off + len) old ++ vs ++
               drop (off + len + length vs) old))
  = take len (drop off old) ++ vs.
Proof.
  intros Hle.
  rewrite drop_app_le by (rewrite length_take; lia).
  rewrite <- take_drop_commute.
  rewrite app_assoc. apply take_app_length'.
  rewrite length_app, length_take, length_drop. lia.
Qed.

(** [append] yields the old elements followed by the new ones, whichever
    way it takes and whatever capacity a new array gets. *)
Lemma append_val g s vs st :
  wf_slice st s →
  slice_val (append g s vs st).2 (append g s vs st).1 = slice_val st s ++ vs.
Proof.
  intros Hwf. pose proof (slice_val_length st s Hwf) as Hvl.
  destruct Hwf as [Hlen Hcap]. unfold append; cbv zeta.
  destruct (s_len s + length vs <=? s_cap s)%nat eqn:Hfit; simpl.
  - apply Nat.leb_le in Hfit.
    unfold slice_val, array_of, write_array in *; simpl.
    destruct (s_ptr s) as [a|] eqn:Ha; simpl in *.
    + rewrite list_lookup_alter_eq.
      destruct (arrays st !! a) as [old|] eqn:Hold; simpl in *.
      * apply write_read. lia.
      * assert (s_len s = 0 ∧ length vs = 0)%nat as [-> Hvs] by lia.
        apply length_zero_iff_nil in Hvs as ->. by rewrite !take_0.
    + assert (s_len s = 0 ∧ length vs = 0)%nat as [-> Hvs] by lia.
      apply length_zero_iff_nil in Hvs as ->. by rewrite !take_0.
  - unfold slice_val at 1, array_of; simpl.
    rewrite list_lookup_middle by done. simpl.
    rewrite drop_0, app_assoc. apply take_app_length'.
    rewrite length_app. lia.
Qed.

Lemma append_wf g s vs st :
  (∀ old n, n ≤ g old n)%nat →
  wf_slice st s →
  wf_slice (append g s vs st).2 (append g s vs st).1.
Proof.
  intros Hg Hwf. pose proof (slice_val_length st s Hwf) as Hvl.
  destruct Hwf as [Hlen Hcap]. unfold append; cbv zeta.
  destruct (s_len s + length vs <=? s_cap s)%nat eqn:Hfit; simpl.
  - apply Nat.leb_le in Hfit. split; simpl; [done|].
    unfold array_of, write_array in *; simpl.
    destruct (s_ptr s) as [a|] eqn:Ha; simpl in *; [|done].
    rewrite list_lookup_alter_eq.
    destruct (arrays st !! a) as [old|] eqn:Hold; simpl in *; [|done].
    rewrite !length_app, length_take, length_drop. lia.
  - split; simpl; [apply Hg|].
    unfold array_of; simpl. rewrite list_lookup_middle by done. simpl.
    rewrite !length_app, length_replicate, Hvl.
    pose proof (Hg (s_cap s) (s_len s + length vs)%nat). lia.
Qed.

(** *** Tags *)

Lemma indexOfTag_from_spec tag tags k :
  0 <= k →
  ((tag ∉ tags) ∧ indexOfTag_from k tag tags = -1) ∨
  (∃ i : nat, indexOfTag_from k tag tags = k + Z.of_nat i ∧
              tags !! i = Some tag ∧ tag ∉ take i tags).
Proof.
  revert k. induction tags as [|t tags IH]; intros k Hk; simpl.
  - left. split; [apply not_elem_of_nil|done].
  - destruct (String.eqb t tag) eqn:Heq.
    + apply String.eqb_eq in Heq as ->. right. exists 0%nat.
      split; [lia|]. split; [done|]. simpl. apply not_elem_of_nil.
    + apply String.eqb_neq in Heq.
      destruct (IH (k + 1) ltac:(lia)) as [[Hnot Hi]|(i & Hi & Hl & Hnot)].
      * left. split; [|done]. rewrite not_elem_of_cons. split; [|done].
        congruence.
      * right. exists (S i). split; [lia|]. split; [done|]. simpl.
        rewrite not_elem_of_cons. split; [|done]. congruence.
Qed.

Lemma indexOfTag_spec tag tags :
  ((tag ∉ tags) ∧ indexOfTag tag tags = -1) ∨
  (∃ i : nat, indexOfTag tag tags = Z.of_nat i ∧
              tags !! i = Some tag ∧ tag ∉ take i tags).
Proof. apply (indexOfTag_from_spec tag tags 0). lia. Qed.

Lemma HasTag_true tag e st : HasTag tag e st = true ↔ tag ∈ tags_of e st.
Proof.
  unfold HasTag, tags_of.
  destruct (indexOfTag_spec tag (slice_val st (Tags e)))
    as [[Hnot ->]|(i & -> & Hl & _)].
  - simpl. split; [done|]. intros Hin. by destruct Hnot.
  - assert ((Z.of_nat i =? -1) = false) as -> by (apply Z.eqb_neq; lia).
    split; [|done]. intros _. by eapply list_elem_of_lookup_2.
Qed.

Lemma HasTag_false tag e st : HasTag tag e st = false ↔ tag ∉ tags_of e st.
Proof.
  rewrite <- HasTag_true. by destruct (HasTag tag e st).
Qed.

(** In a sequence without duplicates, dropping position [i] drops the
    element at [i] altogether. *)
Lemma NoDup_delete_filter (l : list string) (i : nat) (t : string) :
  NoDup l → l !! i = Some t →
  take i l ++ drop (S i) l = filter (λ x, x ≠ t) l ∧
  t ∉ take i l ++ drop (S i) l.
Proof.
  intros Hnd Hi.
  rewrite <- (take_drop_middle l i t Hi) in Hnd.
  apply NoDup_app in Hnd as (_ & Hsep & Hnd).
  apply NoDup_cons in Hnd as [Hdrop _].
  assert (Htake : t ∉ take i l).
  { intros Hin. apply (Hsep t Hin). apply elem_of_cons. by left. }
  assert (Hid : ∀ k : list string, t ∉ k → filter (λ x, x ≠ t) k = k).
  { induction k as [|x k IH]; [done|].
    rewrite not_elem_of_cons. intros [Hne Hk].
    rewrite filter_cons_True by congruence. by rewrite IH. }
  split.
  - rewrite <- (take_drop_middle l i t Hi) at 3.
    rewrite filter_app, filter_cons_False by (by intros H; apply H).
    by rewrite !Hid.
  - rewrite not_elem_of_app. done.
Qed.

Lemma NoDup_count_one (l : list string) (t : string) :
  NoDup l → t ∈ l → length (filter (λ x, x = t) l) = 1%nat.
Proof.
  induction 1 as [|x l Hx Hnd IH]; [by intros ?%elem_of_nil|].
  intros [->|Hin]%elem_of_cons.
  - rewrite filter_cons_True by done. simpl. f_equal.
    clear IH Hnd. induction l as [|y l IH]; [done|].
    apply not_elem_of_cons in Hx as [Hne Hx].
    rewrite filter_cons_False by congruence. by apply IH.
  - rewrite filter_cons_False; [by apply IH|].
    intros ->. by apply Hx.
Qed.

Lemma AddTag_present g t e st :
  HasTag t e st = true → AddTag g t e st = (e, st).
Proof. intros H. unfold AddTag. by rewrite H. Qed.

Lemma AddTag_absent g t e st :
  wf_slice st (Tags e) → HasTag t e st = false →
  tags_of (AddTag g t e st).1 (AddTag g t e st).2 = tags_of e st ++ [t].
Proof.
  intros Hwf H. unfold AddTag. rewrite H. simpl.
  pose proof (append_val g (Tags e) [t] st Hwf) as Hval.
  by destruct (append g (Tags e) [t] st) as [tags st'].
Qed.

Lemma RemoveTag_absent g t e st :
  HasTag t e st = false → RemoveTag g t e st = Some (e, st).
Proof.
  unfold HasTag, RemoveTag. cbv zeta. intros H.
  by destruct (indexOfTag t (slice_val st (Tags e)) =? -1).
Qed.

Lemma RemoveTag_present g t e st (i : nat) :
  wf_slice st (Tags e) →
  indexOfTag t (tags_of e st) = Z.of_nat i →
  tags_of e st !! i = Some t →
  ∃ e' st', RemoveTag g t e st = Some (e', st') ∧
            tags_of e' st' = take i (tags_of e st) ++ drop (S i) (tags_of e st).
Proof.
  intros Hwf Hidx Hi.
  pose proof (slice_val_length st (Tags e) Hwf) as Hvl.
  pose proof (lookup_lt_Some _ _ _ Hi) as Hlt. unfold tags_of in *.
  rewrite Hvl in Hlt. destruct Hwf as [Hlen Hcap].
  unfold RemoveTag. cbv zeta. rewrite Hidx.
  assert ((Z.of_nat i =? -1) = false) as -> by (apply Z.eqb_neq; lia).
  simpl negb. cbv iota.
  replace (Z.to_nat (Z.of_nat i + 1)) with (S i) by lia.
  rewrite Nat2Z.id. unfold slice_to, slice_from.
  assert ((i <=? s_cap (Tags e))%nat = true) as ->
    by (apply Nat.leb_le; lia).
  assert ((S i <=? s_len (Tags e))%nat = true) as ->
    by (apply Nat.leb_le; lia).
  simpl.
  set (front := {| s_ptr := s_ptr (Tags e); s_off := s_off (Tags e);
                   s_len := i; s_cap := s_cap (Tags e) |}).
  set (back := {| s_ptr := s_ptr (Tags e); s_off := (s_off (Tags e) + S i)%nat;
                  s_len := (s_len (Tags e) - S i)%nat;
                  s_cap := (s_cap (Tags e) - S i)%nat |}).
  assert (Hwf' : wf_slice st front) by (split; simpl; [lia|done]).
  pose proof (append_val g front (slice_val st back) st Hwf') as Hval.
  destruct (append g front (slice_val st back) st) as [tags st'].
  simpl in Hval. exists (set_Tags tags e), st'. split; [done|].
  simpl. rewrite Hval. f_equal.
  - unfold slice_val, front, array_of; simpl.
    rewrite take_take. f_equal. lia.
  - unfold slice_val, back, array_of; simpl.
    rewrite <- drop_drop, take_drop_commute. do 2 f_equal. lia.
Qed.

(** C9. For an entry whose tags have no duplicates (its tag slice being
    well formed) and a tag [t]: adding [t] twice gives what adding it once
    gives, with exactly one occurrence of [t]; [AddTag] does nothing when
    [t] is there and appends [t] after the existing tags, in their order,
    when it is not, without introducing a duplicate; [RemoveTag] does
    nothing when [t] is not there and, when it is, leaves the other tags
    in their order and [HasTag t] false. *)
Theorem tags_idempotent (g : nat → nat → nat) (e : TimeEntry) (st : store)
    (t : string) :
  wf_slice st (Tags e) →
  NoDup (tags_of e st) →
  let r1 := AddTag g t e st in
  let r2 := AddTag g t r1.1 r1.2 in
  r2 = r1 ∧
  length (filter (λ x, x = t) (tags_of r2.1 r2.2)) = 1%nat ∧
  (HasTag t e st = true → r1 = (e, st)) ∧
  (HasTag t e st = false → tags_of r1.1 r1.2 = tags_of e st ++ [t]) ∧
  NoDup (tags_of r1.1 r1.2) ∧
  (HasTag t e st = false → RemoveTag g t e st = Some (e, st)) ∧
  (HasTag t e st = true →
     ∃ e' st', RemoveTag g t e st = Some (e', st') ∧
               HasTag t e' st' = false ∧
               tags_of e' st' = filter (λ x, x ≠ t) (tags_of e st)).
Proof.
  intros Hwf Hnd r1 r2.
  assert (Hin1 : t ∈ tags_of r1.1 r1.2).
  { subst r1. destruct (HasTag t e st) eqn:Hhas.
    - rewrite AddTag_present by done. by apply HasTag_true.
    - rewrite AddTag_absent by done. apply elem_of_app. right.
      by apply list_elem_of_singleton. }
  assert (Hnd1 : NoDup (tags_of r1.1 r1.2)).
  { subst r1. destruct (HasTag t e st) eqn:Hhas.
    - by rewrite AddTag_present.
    - rewrite AddTag_absent by done. apply NoDup_app.
      split; [done|]. split; [|apply NoDup_singleton].
      intros x Hx ->%list_elem_of_singleton.
      by apply HasTag_false in Hhas. }
  assert (H21 : r2 = r1).
  { subst r2. rewrite AddTag_present; [by destruct r1|].
    by apply HasTag_true. }
  split; [done|]. split; [rewrite H21; by apply NoDup_count_one|].
  split; [by apply AddTag_present|].
  split; [by apply AddTag_absent|].
  split; [done|].
  split; [by apply RemoveTag_absent|].
  intros Hhas.
  destruct (indexOfTag_spec t (tags_of e st))
    as [[Hnot _]|(i & Hidx & Hi & _)].
  { by apply HasTag_true in Hhas. }
  destruct (RemoveTag_present g t e st i Hwf Hidx Hi)
    as (e' & st' & Hrm & Htags).
  destruct (NoDup_delete_filter _ _ _ Hnd Hi) as [Hfilter Hgone].
  exists e', st'. split; [done|]. split.
  - apply HasTag_false. by rewrite Htags.
  - by rewrite Htags.
Qed.

(** C9, at work: the entry holds "a" and "b" in an array with room for
    three; "b" is removed, "c" is added twice. *)
Lemma tags_idempotent_witness :
  let g := λ _ n : nat, (2 * n)%nat in
  let st := {| times := []; arrays := [["a"; "b"; ""]%string] |} in
  let e := set_Tags {| s_ptr := Some 0%nat; s_off := 0; s_len := 2;
                       s_cap := 3 |} zero_TimeEntry in
  AddTag g "c" (AddTag g "c" e st).1 (AddTag g "c" e st).2
    = AddTag g "c" e st ∧
  tags_of (AddTag g "c" e st).1 (AddTag g "c" e st).2
    = ["a"; "b"; "c"]%string ∧
  ∃ e' st', RemoveTag g "b" e st = Some (e', st') ∧
            tags_of e' st' = ["a"%string].
Proof.
  cbv zeta.
  destruct (tags_idempotent (λ _ n : nat, (2 * n)%nat)
              (set_Tags {| s_ptr := Some 0%nat; s_off := 0; s_len := 2;
                           s_cap := 3 |} zero_TimeEntry)
              {| times := []; arrays := [["a"; "b"; ""]%string] |} "c")
    as (Htwice & _ & _ & Hadd & _).
  { split; simpl; lia. }
  { apply (bool_decide_unpack _). by vm_compute. }
  split; [exact Htwice|].
  split; [exact (Hadd eq_refl)|].
  destruct (tags_idempotent (λ _ n : nat, (2 * n)%nat)
              (set_Tags {| s_ptr := Some 0%nat; s_off := 0; s_len := 2;
                           s_cap := 3 |} zero_TimeEntry)
              {| times := []; arrays := [["a"; "b"; ""]%string] |} "b")
    as (_ & _ & _ & _ & _ & _ & Hrm).
  { split; simpl; lia. }
  { apply (bool_decide_unpack _). by vm_compute. }
  destruct (Hrm eq_refl) as (e' & st' & Hcall & _ & Htags).
  by exists e', st'.
Defined.

(** *** Copy *)

Lemma write_time_same l v st :
  times st !! l = Some v → write_time l v st = st.
Proof.
  intros H. destruct st as [ts ars]. unfold write_time, with_times. simpl in *.
  by rewrite list_insert_id.
Qed.

(** Where [Copy] returns, all it has done is to give the tags a new
    backing array: the instants are written with the values they hold. *)
Lemma Copy_inv e st c st' :
  Copy e st = Some (c, st') →
  c = set_Tags (make_strings (s_len (Tags e)) st).1 e ∧
  st' = copy_strings (make_strings (s_len (Tags e)) st).1 (Tags e)
          (make_strings (s_len (Tags e)) st).2.
Proof.
  unfold Copy. cbv zeta. simpl.
  set (tags := {| s_ptr := Some (length (arrays st)); s_off := 0;
                  s_len := s_len (Tags e); s_cap := s_len (Tags e) |}).
  set (st1 := copy_strings tags (Tags e) _).
  assert (Ht : times st1 = times st) by done.
  destruct (Start e) as [l|]; simpl.
  - destruct (times st !! l) as [v|] eqn:Hv; simpl; [|done].
    rewrite write_time_same by (by rewrite Ht).
    destruct (Stop e) as [q|]; simpl.
    + destruct (times st !! q) as [w|] eqn:Hw; simpl; [|done].
      rewrite write_time_same by (by rewrite Ht). by intros [= <- <-].
    + by intros [= <- <-].
  - destruct (Stop e) as [q|]; simpl.
    + destruct (times st !! q) as [w|] eqn:Hw; simpl; [|done].
      rewrite write_time_same by (by rewrite Ht). by intros [= <- <-].
    + by intros [= <- <-].
Qed.

(** The copy holds the very pointers of the original. *)
Lemma Copy_shares_instants e st c st' :
  Copy e st = Some (c, st') → Start c = Start e ∧ Stop c = Stop e.
Proof. intros [-> _]%Copy_inv. done. Qed.

(** A write through the start pointer of the copy is a write to the
    start instant of the original. *)
Lemma Copy_start_aliased e st c st' l v :
  Copy e st = Some (c, st') → Start c = Some l →
  (l < length (times st'))%nat →
  StartTime e (write_time l v st') = v.
Proof.
  intros [Hs _]%Copy_shares_instants Hl Hlt. unfold StartTime.
  rewrite <- Hs, Hl. simpl. by rewrite list_lookup_insert_eq.
Qed.

(** A new array, however written, is no array of an older slice. *)
Lemma array_of_fresh_write st s f x :
  (∀ a, s_ptr s = Some a → (a < length (arrays st))%nat) →
  array_of (with_arrays (alter f (length (arrays st)))
              (with_arrays (λ l, l ++ [x]) st)) s
  = array_of st s.
Proof.
  intros Hvalid. unfold array_of. simpl.
  destruct (s_ptr s) as [a|]; [|done].
  pose proof (Hvalid a eq_refl) as Hlt.
  rewrite list_lookup_alter_ne by lia.
  by rewrite lookup_app_l by done.
Qed.

(** The tags, in contrast, are duplicated: the copy has them in an array
    of its own. *)
Lemma Copy_tags_fresh e st c st' :
  wf_slice st (Tags e) →
  (∀ a, s_ptr (Tags e) = Some a → (a < length (arrays st))%nat) →
  Copy e st = Some (c, st') →
  s_ptr (Tags c) = Some (length (arrays st)) ∧
  s_ptr (Tags c) ≠ s_ptr (Tags e) ∧
  tags_of c st' = tags_of e st ∧
  tags_of e st' = tags_of e st.
Proof.
  intros Hwf Hvalid [-> ->]%Copy_inv.
  pose proof (slice_val_length st (Tags e) Hwf) as Hvl.
  assert (Hsame : slice_val (make_strings (s_len (Tags e)) st).2 (Tags e)
                  = slice_val st (Tags e)).
  { unfold slice_val, array_of. simpl.
    destruct (s_ptr (Tags e)) as [a|] eqn:Ha; [|done].
    by rewrite lookup_app_l by (by apply Hvalid). }
  split; [done|]. split.
  { simpl. intros Heq. symmetry in Heq. apply Hvalid in Heq. lia. }
  unfold tags_of, copy_strings. rewrite Hsame. simpl.
  rewrite Nat.min_id, take_ge by lia.
  split.
  - remember (slice_val st (Tags e)) as v eqn:Hv.
    unfold slice_val, array_of, write_array. simpl.
    rewrite list_lookup_alter_eq, list_lookup_middle by done. simpl.
    rewrite (drop_ge (replicate _ _)) by (rewrite length_replicate; lia).
    rewrite app_nil_r, drop_0. apply take_ge. lia.
  - unfold write_array, slice_val. by rewrite array_of_fresh_write.
Qed.

(** C2. [Copy] does not duplicate the instants: [newEntry := *e] copies
    the two pointers, and the assignments through them write each instant
    onto itself. For an entry from second 100 to second 160 with the tag
    "a", the copy has the tag in a new array but the start and stop
    pointers of the original; setting the instant behind the copy's start
    pointer to second 500 moves the start time of the original to second
    500. *)
Theorem Copy_aliases_instants :
  let st := {| times := [100000000000; 160000000000];
               arrays := [["a"%string]] |} in
  let e := set_Duration 60
             (set_Tags {| s_ptr := Some 0%nat; s_off := 0; s_len := 1;
                          s_cap := 1 |}
                (set_Stop (Some 1%nat)
                   (set_Start (Some 0%nat) zero_TimeEntry))) in
  ∃ c st1,
    Copy e st = Some (c, st1) ∧
    tags_of c st1 = ["a"%string] ∧ s_ptr (Tags c) ≠ s_ptr (Tags e) ∧
    Start c = Some 0%nat ∧ Start c = Start e ∧ Stop c = Stop e ∧
    StartTime e st1 = 100000000000 ∧
    StartTime c (write_time 0 500000000000 st1) = 500000000000 ∧
    StartTime e (write_time 0 500000000000 st1) = 500000000000.
Proof.
  cbv zeta. do 2 eexists. split; [by vm_compute|].
  repeat split; by vm_compute.
Qed.

(** *** Unstop *)

(** C8. [UnstopTimeEntry] posts one new entry: a running one (duration
    -1) with the description, workspace, project, task, tags and billable
    flag of [timer] and with [timer]'s own start pointer, hence its start
    instant. What follows is told by the answers of the service and of
    the decoder. If the service refuses the creation, or the decoder
    refuses its answer, that error is returned with the zero entry and
    the creation is the only request sent: the old entry is not deleted.
    If the creation succeeds, the one further request is the deletion of
    [timer]; when that fails the result is the error
    "old entry not deleted: ..." with the zero entry, and no request
    undoes the creation; when it succeeds the result is the decoded new
    entry. *)
Theorem UnstopTimeEntry_spec {W : Type}
    (request : call → store → W → (string + string) * W)
    (unmarshal : string → store → (string + TimeEntry) * store)
    (now : Z) (timer : TimeEntry) (st : store) (w : world W) (t0 : Z) :
  deref st (Start timer) = Some t0 →
  ∃ entry st1,
    create.Description entry = Description timer ∧
    create.WorkspaceId entry = Wid timer ∧
    create.ProjectID entry = Pid timer ∧
    create.TaskID entry = Tid timer ∧
    create.Tags entry = Tags timer ∧
    create.Billable entry = Billable timer ∧
    create.Duration entry = -1 ∧
    create.Start entry = Start timer ∧
    deref st1 (create.Start entry) = Some t0 ∧
    let post := PostTimeEntry (Wid timer) entry in
    let delete := DeleteEntry (Wid timer) (ID timer) in
    let r1 := request post st1 (remote w) in
    let w1 := {| remote := r1.2; sent := sent w ++ [post] |} in
    (∀ err, r1.1 = inl err →
       UnstopTimeEntry request unmarshal now timer st w
       = (zero_TimeEntry, Some err, st1, w1)) ∧
    (∀ data err st2,
       r1.1 = inr data →
       unmarshal data st1 = (inl err, st2) →
       UnstopTimeEntry request unmarshal now timer st w
       = (zero_TimeEntry, Some err, st2, w1)) ∧
    (∀ data newEntry st2,
       r1.1 = inr data →
       unmarshal data st1 = (inr newEntry, st2) →
       let r2 := request delete st2 r1.2 in
       let w2 := {| remote := r2.2; sent := sent w ++ [post; delete] |} in
       (∀ err, r2.1 = inl err →
          UnstopTimeEntry request unmarshal now timer st w
          = (zero_TimeEntry,
             Some ("old entry not deleted: " ++ err)%string, st2, w2)) ∧
       (∀ answer, r2.1 = inr answer →
          UnstopTimeEntry request unmarshal now timer st w
          = (newEntry, None, st2, w2))).
Proof.
  intros Hstart.
  exists (create.set_Start (Start timer)
            (withMetadataFromTimeEntry timer
               (newStartEntryRequestData now (Description timer)
                  (Wid timer) st).1)),
         (new_time now st).2.
  repeat (split; [done|]).
  split; [by apply deref_new_time_old|].
  cbv zeta.
  unfold UnstopTimeEntry, startTimeEntry, DeleteTimeEntry, send,
    handleTimeEntryResponse.
  simpl.
  match goal with
  | |- context [request (PostTimeEntry ?a ?b) ?c ?d] =>
      destruct (request (PostTimeEntry a b) c d) as [r1 s1]
  end.
  simpl. split; [|split].
  - by intros err ->.
  - intros data err st2 -> Hdec. by rewrite Hdec.
  - intros data newEntry st2 -> Hdec. rewrite Hdec. simpl.
    destruct (request (DeleteEntry (Wid timer) (ID timer)) st2 s1)
      as [r2 s2].
    simpl. rewrite <- app_assoc. simpl.
    split; by intros ? ->.
Qed.

(** C8, at work, twice. Against a service that refuses the creation the
    error is the service's and the creation is the only request sent;
    against a service that accepts the creation and refuses the deletion
    the error is "old entry not deleted: 403", after two requests. *)
Lemma UnstopTimeEntry_spec_witness :
  let refuse := λ (c : call) (_ : store) (n : nat),
    (inl "500"%string : string + string, n) in
  let request := λ (c : call) (_ : store) (n : nat),
    match c with
    | PostTimeEntry _ _ => (inr "{}"%string, S n)
    | DeleteEntry _ _ => (inl "403"%string, n)
    end in
  let unmarshal := λ (_ : string) (st : store),
    (inr (set_Duration (-1) zero_TimeEntry) : string + TimeEntry, st) in
  let st := {| times := [100000000000]; arrays := [] |} in
  let timer := set_Duration 60 (set_Start (Some 0%nat) zero_TimeEntry) in
  (∃ st1 entry,
     UnstopTimeEntry refuse unmarshal 700000000000 timer st
       {| remote := 0%nat; sent := [] |}
     = (zero_TimeEntry, Some "500"%string, st1,
        {| remote := 0%nat; sent := [PostTimeEntry 0 entry] |})) ∧
  (∃ st2 w2,
     UnstopTimeEntry request unmarshal 700000000000 timer st
       {| remote := 0%nat; sent := [] |}
     = (zero_TimeEntry, Some "old entry not deleted: 403"%string, st2, w2) ∧
     length (sent w2) = 2%nat).
Proof.
  cbv zeta. split.
  - destruct (UnstopTimeEntry_spec
                (λ (c : call) (_ : store) (n : nat),
                   (inl "500"%string : string + string, n))
                (λ (_ : string) (s : store),
                   (inr (set_Duration (-1) zero_TimeEntry)
                      : string + TimeEntry, s))
                700000000000
                (set_Duration 60 (set_Start (Some 0%nat) zero_TimeEntry))
                {| times := [100000000000]; arrays := [] |}
                {| remote := 0%nat; sent := [] |}
                100000000000 eq_refl)
      as (entry & st1 & _ & _ & _ & _ & _ & _ & _ & _ & _ & Hrefused & _).
    exists st1, entry. exact (Hrefused _ eq_refl).
  - destruct (UnstopTimeEntry_spec
                (λ (c : call) (_ : store) (n : nat),
                   match c with
                   | PostTimeEntry _ _ => (inr "{}"%string, S n)
                   | DeleteEntry _ _ => (inl "403"%string, n)
                   end)
                (λ (_ : string) (s : store),
                   (inr (set_Duration (-1) zero_TimeEntry)
                      : string + TimeEntry, s))
                700000000000
                (set_Duration 60 (set_Start (Some 0%nat) zero_TimeEntry))
                {| times := [100000000000]; arrays := [] |}
                {| remote := 0%nat; sent := [] |}
                100000000000 eq_refl)
      as (entry & st1 & _ & _ & _ & _ & _ & _ & _ & _ & _ & _ & _ & Hok).
    destruct (Hok _ _ _ eq_refl eq_refl) as [Hfail _].
    do 2 eexists. split; [exact (Hfail _ eq_refl)|]. done.
Defined.

End toggl_facts.

(** ** More on the time entry: tags, copies, aliases, sessions *)
Module toggl_laws.
Import toggl toggl_facts.

(** *** Tags *)

Lemma elem_of_delete_ne (l : list string) (i : nat) (t u : string) :
  l !! i = Some t → u ≠ t →
  (u ∈ take i l ++ drop (S i) l ↔ u ∈ l).
Proof.
  intros Hi Hne. rewrite <- (take_drop_middle l i t Hi) at 3.
  rewrite !elem_of_app, elem_of_cons. tauto.
Qed.

Lemma set_Tags_same e : e = set_Tags (Tags e) e.
Proof. by destruct e. Qed.

(** [RemoveTag] touches no field but the tags. *)
Lemma RemoveTag_only_tags g t e st e' st' :
  RemoveTag g t e st = Some (e', st') → e' = set_Tags (Tags e') e.
Proof.
  unfold RemoveTag. cbv zeta.
  destruct (negb _).
  - destruct (slice_to _ _); simpl; [|done].
    destruct (slice_from _ _); simpl; [|done].
    destruct (append _ _ _ _). by intros [= <- <-].
  - intros [= <- <-]. apply set_Tags_same.
Qed.

(** X13. On a well-formed tag slice [RemoveTag] never panics. It removes
    the first occurrence of the tag and nothing else: without the tag the
    entry and the store stay as they are; with it, the tags before and
    after that occurrence keep their places, one element is gone, and any
    further occurrence of the same tag (the decoder does not rule
    duplicates out) stays, so that [HasTag] still holds exactly then. The
    other fields are not touched. *)
Theorem RemoveTag_first_occurrence (g : nat → nat → nat) (e : TimeEntry)
    (st : store) (t : string) :
  wf_slice st (Tags e) →
  ∃ e' st',
    RemoveTag g t e st = Some (e', st') ∧
    e' = set_Tags (Tags e') e ∧
    (t ∉ tags_of e st → e' = e ∧ st' = st) ∧
    (t ∈ tags_of e st →
       ∃ i : nat,
         tags_of e st !! i = Some t ∧ (t ∉ take i (tags_of e st)) ∧
         tags_of e' st' = take i (tags_of e st) ++ drop (S i) (tags_of e st) ∧
         S (length (tags_of e' st')) = length (tags_of e st) ∧
         (HasTag t e' st' = true ↔ t ∈ drop (S i) (tags_of e st))) ∧
    (∀ u, u ≠ t → HasTag u e' st' = HasTag u e st).
Proof.
  intros Hwf.
  destruct (indexOfTag_spec t (tags_of e st))
    as [[Hnot Hidx]|(i & Hidx & Hi & Hfirst)].
  - exists e, st. rewrite RemoveTag_absent by (by apply HasTag_false).
    split; [done|]. split; [apply set_Tags_same|]. by repeat split.
  - destruct (RemoveTag_present g t e st i Hwf Hidx Hi)
      as (e' & st' & Hrm & Htags).
    exists e', st'. split; [done|].
    split; [by eapply RemoveTag_only_tags|].
    split.
    { intros Hnot. destruct Hnot. by eapply list_elem_of_lookup_2. }
    split.
    + intros _. exists i. repeat split; try done.
      * rewrite Htags, length_app, length_take, length_drop.
        pose proof (lookup_lt_Some _ _ _ Hi). lia.
      * rewrite HasTag_true, Htags, elem_of_app. intros [Hin|Hin]; [|done].
        by destruct Hfirst.
      * intros Hin. rewrite HasTag_true, Htags, elem_of_app. by right.
    + intros u Hne.
      apply eq_true_iff_eq. rewrite !HasTag_true, Htags.
      by apply (elem_of_delete_ne _ i t u).
Qed.

(** X13, at work: "a" occurs twice, its first occurrence goes. *)
Lemma RemoveTag_first_occurrence_witness :
  let g := λ _ n : nat, (2 * n)%nat in
  let st := {| times := []; arrays := [["a"; "b"; "a"]%string] |} in
  let e := set_Tags {| s_ptr := Some 0%nat; s_off := 0; s_len := 3;
                       s_cap := 3 |} zero_TimeEntry in
  ∃ e' st', RemoveTag g "a" e st = Some (e', st') ∧
            tags_of e' st' = ["b"; "a"]%string.
Proof.
  cbv zeta.
  destruct (RemoveTag_first_occurrence (λ _ n : nat, (2 * n)%nat)
              (set_Tags {| s_ptr := Some 0%nat; s_off := 0; s_len := 3;
                           s_cap := 3 |} zero_TimeEntry)
              {| times := []; arrays := [["a"; "b"; "a"]%string] |} "a")
    as (e' & st' & Hrm & _).
  { split; simpl; lia. }
  exists e', st'. split; [exact Hrm|].
  revert Hrm. vm_compute. by intros [= <- <-].
Defined.

(** X14. After [AddTag] the entry has the tag, and the presence of every
    other tag is as before. When the tag was not there, removing it again
    gives back the tags the entry had (the runtime growing a slice to at
    least the length asked for). *)
Theorem AddTag_then_RemoveTag (g : nat → nat → nat) (e : TimeEntry)
    (st : store) (t : string) :
  (∀ old n, n ≤ g old n)%nat →
  wf_slice st (Tags e) →
  let r := AddTag g t e st in
  HasTag t r.1 r.2 = true ∧
  (∀ u, u ≠ t → HasTag u r.1 r.2 = HasTag u e st) ∧
  wf_slice r.2 (Tags r.1) ∧
  (HasTag t e st = false →
     ∃ e' st', RemoveTag g t r.1 r.2 = Some (e', st') ∧
               tags_of e' st' = tags_of e st).
Proof.
  intros Hg Hwf r.
  destruct (HasTag t e st) eqn:Hhas.
  - subst r. rewrite AddTag_present by done. simpl.
    split; [done|]. split; [done|]. split; [done|]. done.
  - pose proof (AddTag_absent g t e st Hwf Hhas) as Htags. fold r in Htags.
    assert (Hwf' : wf_slice r.2 (Tags r.1)).
    { subst r. unfold AddTag. rewrite Hhas. simpl.
      pose proof (append_wf g (Tags e) [t] st Hg Hwf) as H.
      by destruct (append g (Tags e) [t] st). }
    split; [|split; [|split; [done|]]].
    + apply HasTag_true. rewrite Htags, elem_of_app. right.
      by apply list_elem_of_singleton.
    + intros u Hne. apply eq_true_iff_eq.
      rewrite !HasTag_true, Htags, elem_of_app, list_elem_of_singleton.
      tauto.
    + intros _. apply HasTag_false in Hhas.
      destruct (indexOfTag_spec t (tags_of r.1 r.2))
        as [[Hnot _]|(i & Hidx & Hi & Hfirst)].
      { destruct Hnot. rewrite Htags, elem_of_app. right.
        by apply list_elem_of_singleton. }
      assert (i = length (tags_of e st)) as ->.
      { rewrite Htags in Hi, Hfirst.
        destruct (decide (i < length (tags_of e st))%nat) as [Hlt|Hge].
        - rewrite lookup_app_l in Hi by done.
          destruct Hhas. by eapply list_elem_of_lookup_2.
        - pose proof (lookup_lt_Some _ _ _ Hi) as Hlen.
          rewrite length_app in Hlen. simpl in Hlen. lia. }
      destruct (RemoveTag_present g t r.1 r.2 _ Hwf' Hidx Hi)
        as (e' & st' & Hrm & Hres).
      exists e', st'. split; [done|].
      rewrite Hres, Htags.
      rewrite take_app_length, drop_ge by (rewrite length_app; simpl; lia).
      by rewrite app_nil_r.
Qed.

(** X14, at work. *)
Lemma AddTag_then_RemoveTag_witness :
  let g := λ _ n : nat, (2 * n)%nat in
  let st := {| times := []; arrays := [["a"; "b"]%string] |} in
  let e := set_Tags {| s_ptr := Some 0%nat; s_off := 0; s_len := 2;
                       s_cap := 2 |} zero_TimeEntry in
  HasTag "c" (AddTag g "c" e st).1 (AddTag g "c" e st).2 = true ∧
  ∃ e' st', RemoveTag g "c" (AddTag g "c" e st).1 (AddTag g "c" e st).2
            = Some (e', st') ∧
            tags_of e' st' = ["a"; "b"]%string.
Proof.
  cbv zeta.
  destruct (AddTag_then_RemoveTag (λ _ n : nat, (2 * n)%nat)
              (set_Tags {| s_ptr := Some 0%nat; s_off := 0; s_len := 2;
                           s_cap := 2 |} zero_TimeEntry)
              {| times := []; arrays := [["a"; "b"]%string] |} "c")
    as (Hhas & _ & _ & Hback).
  { intros old n. lia. }
  { split; simpl; lia. }
  split; [exact Hhas|]. exact (Hback eq_refl).
Defined.

(** *** Copies and aliases *)

(** [append] to one slice leaves the array of a slice with another
    pointer as it is. *)
Lemma append_other_array g s vs st s2 :
  (∀ a, s_ptr s2 = Some a →
        (a < length (arrays st))%nat ∧ s_ptr s ≠ Some a) →
  array_of (append g s vs st).2 s2 = array_of st s2.
Proof.
  intros Hother. unfold append. cbv zeta. unfold array_of.
  destruct (s_ptr s2) as [a|]; [|done].
  destruct (Hother a eq_refl) as [Hlt Hne].
  destruct (_ <=? _)%nat; simpl.
  - unfold write_array. destruct (s_ptr s) as [b|]; simpl; [|done].
    rewrite list_lookup_alter_ne; [done|congruence].
  - by rewrite lookup_app_l.
Qed.

Lemma tags_untouched g t (x y : TimeEntry) st :
  (∀ a, s_ptr (Tags y) = Some a →
        (a < length (arrays st))%nat ∧ s_ptr (Tags x) ≠ Some a) →
  tags_of y (AddTag g t x st).2 = tags_of y st ∧
  (∀ r, RemoveTag g t x st = Some r → tags_of y r.2 = tags_of y st).
Proof.
  intros Hother. unfold tags_of, slice_val. split.
  - unfold AddTag. destruct (negb _); [|done].
    pose proof (append_other_array g (Tags x) [t] st (Tags y) Hother) as H.
    destruct (append g (Tags x) [t] st). simpl in *. by rewrite H.
  - intros r. unfold RemoveTag. cbv zeta.
    destruct (negb _); [|by intros [= <-]].
    unfold slice_to, slice_from.
    repeat (match goal with
            | |- context [if ?b then _ else _] => destruct b
            end); simpl; try done.
    match goal with
    | |- context [append g ?front ?vs st] =>
        pose proof (append_other_array g front vs st (Tags y) Hother) as H;
        destruct (append g front vs st)
    end.
    intros [= <-]. simpl in *. by rewrite H.
Qed.

(** X15. After [Copy], the tags of the copy and of the original are
    separate: adding a tag to one, or removing a tag from one, leaves the
    tags of the other as they are (this for an original whose tag slice
    is well formed and points into the store). *)
Theorem Copy_isolates_tags (g : nat → nat → nat) (e c : TimeEntry)
    (st st1 : store) (t : string) :
  wf_slice st (Tags e) →
  (∀ a, s_ptr (Tags e) = Some a → (a < length (arrays st))%nat) →
  Copy e st = Some (c, st1) →
  tags_of c st1 = tags_of e st ∧
  tags_of c (AddTag g t e st1).2 = tags_of c st1 ∧
  tags_of e (AddTag g t c st1).2 = tags_of e st1 ∧
  (∀ r, RemoveTag g t e st1 = Some r → tags_of c r.2 = tags_of c st1) ∧
  (∀ r, RemoveTag g t c st1 = Some r → tags_of e r.2 = tags_of e st1).
Proof.
  intros Hwf Hvalid Hcopy.
  destruct (Copy_tags_fresh e st c st1 Hwf Hvalid Hcopy)
    as (Hptr & Hne & Hsame & _).
  destruct (Copy_inv e st c st1 Hcopy) as [_ Hst1].
  assert (Hlen : length (arrays st1) = S (length (arrays st))).
  { rewrite Hst1. unfold copy_strings, write_array. simpl.
    rewrite length_alter, length_app. simpl. lia. }
  assert (Hce : ∀ a, s_ptr (Tags c) = Some a →
                     (a < length (arrays st1))%nat ∧
                     s_ptr (Tags e) ≠ Some a).
  { intros a Ha. assert (a = length (arrays st)) as -> by congruence.
    split; [lia|]. intros Heq. apply Hvalid in Heq. lia. }
  assert (Hec : ∀ a, s_ptr (Tags e) = Some a →
                     (a < length (arrays st1))%nat ∧
                     s_ptr (Tags c) ≠ Some a).
  { intros a Ha. pose proof (Hvalid a Ha). split; [lia|].
    rewrite Hptr. intros [= Heq]. lia. }
  destruct (tags_untouched g t e c st1 Hce) as [H1 H2].
  destruct (tags_untouched g t c e st1 Hec) as [H3 H4].
  done.
Qed.

(** X15, at work: "b" is removed from the original after the copy was
    taken. *)
Lemma Copy_isolates_tags_witness :
  let g := λ _ n : nat, (2 * n)%nat in
  let st := {| times := []; arrays := [["a"; "b"]%string] |} in
  let e := set_Tags {| s_ptr := Some 0%nat; s_off := 0; s_len := 2;
                       s_cap := 2 |} zero_TimeEntry in
  ∃ c st1 r,
    Copy e st = Some (c, st1) ∧
    RemoveTag g "b" e st1 = Some r ∧
    tags_of r.1 r.2 = ["a"%string] ∧
    tags_of c r.2 = tags_of e st.
Proof.
  cbv zeta.
  set (e := set_Tags {| s_ptr := Some 0%nat; s_off := 0; s_len := 2;
                        s_cap := 2 |} zero_TimeEntry).
  set (st := {| times := []; arrays := [["a"; "b"]%string] |}).
  assert (Hcopy : ∃ c st1, Copy e st = Some (c, st1))
    by (do 2 eexists; by vm_compute).
  destruct Hcopy as (c & st1 & Hcopy).
  assert (Hrm : ∃ r, RemoveTag (λ _ n : nat, (2 * n)%nat) "b" e st1 = Some r
                     ∧ tags_of r.1 r.2 = ["a"%string]).
  { revert Hcopy. vm_compute. intros [= <- <-]. by eexists. }
  destruct Hrm as (r & Hrm & Hr).
  exists c, st1, r. split; [done|]. split; [done|]. split; [done|].
  destruct (Copy_isolates_tags (λ _ n : nat, (2 * n)%nat) e c st st1 "b")
    as (Hsame & _ & _ & Hiso & _).
  - split; simpl; lia.
  - intros a [= <-]. simpl. lia.
  - done.
  - rewrite (Hiso r Hrm). exact Hsame.
Defined.

(** *** The mutators and the store *)

(** A mutator adds cells for instants at the end of the store and does
    nothing else to it. *)
Lemma mutate_extends m e st err e' st' :
  mutate m e st = Some (err, e', st') →
  arrays st' = arrays st ∧ (∃ new, times st' = times st ++ new) ∧
  same_metadata e e'.
Proof.
  destruct m as [start updateEnd|stop|d]; simpl.
  - unfold SetStartTime. simpl.
    destruct (negb _); simpl.
    + destruct updateEnd; simpl.
      * intros [= <- <- <-]. simpl. split; [done|]. split; [|by repeat split].
        eexists. by rewrite <- app_assoc.
      * destruct (Stop e) as [q|]; simpl; [|done].
        destruct (_ !! q); simpl; [|done].
        rewrite list_lookup_middle by done. simpl.
        intros [= <- <- <-]. simpl. split; [done|].
        split; [by eexists|by repeat split].
    + intros [= <- <- <-]. simpl. split; [done|].
      split; [by eexists|by repeat split].
  - unfold SetStopTime. destruct (IsRunning e).
    + intros [= <- <- <-]. split; [done|].
      split; [exists []; by rewrite app_nil_r|by repeat split].
    + simpl. destruct (Start e) as [l|]; simpl; [|done].
      destruct (_ !! l); simpl; [|done].
      intros [= <- <- <-]. simpl. split; [done|].
      split; [by eexists|by repeat split].
  - unfold SetDuration. destruct (IsRunning e).
    + intros [= <- <- <-]. split; [done|].
      split; [exists []; by rewrite app_nil_r|by repeat split].
    + simpl. destruct (Start e) as [l|]; simpl; [|done].
      destruct (_ !! l); simpl; [|done].
      intros [= <- <- <-]. simpl. split; [done|].
      split; [by eexists|by repeat split].
Qed.

(** X16. [SetStartTime], [SetStopTime] and [SetDuration] never write to an
    instant that exists: they point the entry to new ones. Whatever other
    entry shares pointers with the entry changed (a struct copy, or the
    result of [Copy]) keeps its start time, its stop time and its tags;
    and the entry changed keeps every field other than start, stop and
    duration. *)
Theorem mutators_never_overwrite (m : mutation) (e e' x : TimeEntry)
    (st st' : store) (err : option string) :
  mutate m e st = Some (err, e', st') →
  (∀ l, Start x = Some l → (l < length (times st))%nat) →
  (∀ l, Stop x = Some l → (l < length (times st))%nat) →
  StartTime x st' = StartTime x st ∧
  StopTime x st' = StopTime x st ∧
  tags_of x st' = tags_of x st ∧
  same_metadata e e'.
Proof.
  intros Hm Hstart Hstop.
  destruct (mutate_extends _ _ _ _ _ _ Hm) as (Harr & [new Htimes] & Hmeta).
  unfold StartTime, StopTime, tags_of, slice_val, array_of.
  rewrite Harr, Htimes. split; [|split; [|split; [done|exact Hmeta]]].
  - destruct (Start x) as [l|]; [|done].
    by rewrite lookup_app_l by (by apply Hstart).
  - destruct (Stop x) as [l|]; [|done].
    by rewrite lookup_app_l by (by apply Hstop).
Qed.

(** X16, at work: the start of an entry is moved; an alias of the entry
    still starts at second 100. *)
Lemma mutators_never_overwrite_witness :
  let st := {| times := [100000000000; 160000000000]; arrays := [] |} in
  let e := set_Duration 60 (set_Stop (Some 1%nat)
             (set_Start (Some 0%nat) zero_TimeEntry)) in
  ∃ e' st', SetStartTime 130000000000 true e st = Some (e', st') ∧
            StartTime e' st' = 130000000000 ∧
            StartTime e st' = 100000000000.
Proof.
  cbv zeta.
  set (e := set_Duration 60 (set_Stop (Some 1%nat)
              (set_Start (Some 0%nat) zero_TimeEntry))).
  set (st := {| times := [100000000000; 160000000000]; arrays := [] |}).
  assert (Hcall : ∃ e' st',
            SetStartTime 130000000000 true e st = Some (e', st') ∧
            StartTime e' st' = 130000000000)
    by (do 2 eexists; split; by vm_compute).
  destruct Hcall as (e' & st' & Hcall & Hnew).
  exists e', st'. split; [done|]. split; [done|].
  destruct (mutators_never_overwrite (CallSetStartTime 130000000000 true)
              e e' e st st' None) as (Hsame & _).
  - unfold mutate. by rewrite Hcall.
  - intros l [= <-]. simpl. lia.
  - intros l [= <-]. simpl. lia.
  - rewrite Hsame. by vm_compute.
Defined.

(** X17. [SetStartTime] without [updateEnd] takes the duration as it
    comes: with a new start at least a whole second after the stop
    instant the duration becomes negative, the entry counts as running
    from then on, and [SetDuration] and [SetStopTime] refuse it. *)
Theorem SetStartTime_after_stop (e : TimeEntry) (st : store)
    (start t1 : Z) :
  IsRunning e = false →
  deref st (Stop e) = Some t1 →
  time.Unix t1 < time.Unix start →
  in_int64 (time.Unix t1 - time.Unix start) →
  ∃ e' st',
    SetStartTime start false e st = Some (e', st') ∧
    Duration e' = time.Unix t1 - time.Unix start ∧
    IsRunning e' = true ∧
    ∀ d s,
      SetDuration d e' st'
        = Some (Some "TimeEntry must be stopped"%string, e', st') ∧
      SetStopTime s e' st'
        = Some (Some "TimeEntry must be stopped"%string, e', st').
Proof.
  intros Hrun Ht1 Hlt Hfit. unfold SetStartTime. simpl.
  change (IsRunning (set_Start (Some (length (times st))) e))
    with (IsRunning e).
  rewrite Hrun. simpl.
  destruct (Stop e) as [q|]; [|done]. simpl in Ht1. simpl.
  rewrite (lookup_app_l_Some _ _ _ _ Ht1). simpl.
  rewrite list_lookup_middle by done. simpl.
  do 2 eexists. split; [done|].
  rewrite wrap64_id by done. simpl. split; [done|].
  assert (Hneg : (time.Unix t1 - time.Unix start <? 0) = true)
    by (apply Z.ltb_lt; lia).
  split; [done|]. intros d s.
  unfold SetDuration, SetStopTime, IsRunning. simpl. by rewrite Hneg.
Qed.

(** X17, at work: the stop is at second 160, the new start at second
    200. *)
Lemma SetStartTime_after_stop_witness :
  let st := {| times := [100000000000; 160000000000]; arrays := [] |} in
  let e := set_Duration 60 (set_Stop (Some 1%nat)
             (set_Start (Some 0%nat) zero_TimeEntry)) in
  ∃ e' st', SetStartTime 200000000000 false e st = Some (e', st') ∧
            Duration e' = -40 ∧ IsRunning e' = true.
Proof.
  cbv zeta.
  destruct (SetStartTime_after_stop
              (set_Duration 60 (set_Stop (Some 1%nat)
                 (set_Start (Some 0%nat) zero_TimeEntry)))
              {| times := [100000000000; 160000000000]; arrays := [] |}
              200000000000 160000000000)
    as (e' & st' & Hcall & Hd & Hrun & _).
  - done.
  - done.
  - by vm_compute.
  - by vm_compute.
  - exists e', st'. split; [exact Hcall|]. split; [exact Hd|exact Hrun].
Defined.

(** X18. The setters agree on what a duration is. On a stopped entry with
    its start in place, after [SetDuration d] for a [d] that is not
    negative and fits a [Duration] in nanoseconds, setting the stop time
    to the stop time the entry now has, or the start time to the start
    time it has (stop held), succeeds and gives the duration [d] again,
    start and stop staying where they are. *)
Theorem SetDuration_roundtrip (e : TimeEntry) (st : store) (d t0 : Z) :
  IsRunning e = false →
  deref st (Start e) = Some t0 →
  0 <= d → in_int64 (d * time.Second) →
  ∃ e1 st1,
    SetDuration d e st = Some (None, e1, st1) ∧
    StartTime e1 st1 = t0 ∧
    StopTime e1 st1 = t0 + d * time.Second ∧
    (∃ e2 st2,
       SetStopTime (StopTime e1 st1) e1 st1 = Some (None, e2, st2) ∧
       Duration e2 = d ∧
       StartTime e2 st2 = t0 ∧ StopTime e2 st2 = StopTime e1 st1) ∧
    (∃ e3 st3,
       SetStartTime (StartTime e1 st1) false e1 st1 = Some (e3, st3) ∧
       Duration e3 = d ∧
       StartTime e3 st3 = t0 ∧ StopTime e3 st3 = StopTime e1 st1).
Proof.
  intros Hrun Ht0 Hd Hfit.
  destruct (Start e) as [l|] eqn:Hl; [|done]. simpl in Ht0.
  assert (Hrun1 : (d <? 0) = false) by (apply Z.ltb_ge; lia).
  unfold SetDuration. rewrite Hrun. simpl. rewrite Hl. simpl.
  rewrite Ht0. simpl. rewrite seconds_exact by done.
  do 2 eexists. split; [done|].
  unfold StartTime, StopTime. simpl. rewrite Hl.
  rewrite (lookup_app_l_Some _ _ _ _ Ht0).
  rewrite list_lookup_middle by done. simpl.
  split; [done|]. split; [done|]. split.
  - unfold SetStopTime, IsRunning. simpl. rewrite Hrun1. simpl.
    rewrite Hl. simpl.
    rewrite (lookup_app_l_Some _ _ _ _
               (lookup_app_l_Some _ _ _ _ Ht0)). simpl.
    do 2 eexists. split; [done|]. simpl. rewrite Hl.
    rewrite (lookup_app_l_Some _ _ _ _
               (lookup_app_l_Some _ _ _ _ Ht0)).
    rewrite list_lookup_middle by (by rewrite length_app; simpl; lia).
    simpl. split; [|done].
    unfold time.Add. rewrite Sub_exact.
    + replace (t0 + d * time.Second - t0) with (d * time.Second) by lia.
      by apply Z.quot_mul.
    + by replace (t0 + d * time.Second - t0) with (d * time.Second) by lia.
  - unfold SetStartTime. simpl.
    change (IsRunning (set_Start _ (set_Stop _ (set_Duration d e))))
      with (d <? 0). rewrite Hrun1. simpl.
    assert (H1 : ((times st ++ [time.Add t0 (d * time.Second)]) ++ [t0])
                   !! length (times st)
                 = Some (time.Add t0 (d * time.Second))).
    { apply lookup_app_l_Some. by apply list_lookup_middle. }
    assert (H2 : ((times st ++ [time.Add t0 (d * time.Second)]) ++ [t0])
                   !! length (times st ++ [time.Add t0 (d * time.Second)])
                 = Some t0) by (by apply list_lookup_middle).
    rewrite H1, H2. simpl. do 2 eexists. split; [done|]. simpl.
    rewrite H1, H2. simpl. split; [|done].
    unfold time.Add, time.Unix.
    rewrite Z.div_add by done.
    replace (t0 `div` time.Second + d - t0 `div` time.Second) with d by lia.
    apply wrap64_id. unfold in_int64 in *. unfold time.Second in Hfit.
    rewrite min_int64_eq, max_int64_eq in *. lia.
Qed.

(** X18, at work: an entry starting at second 100 is given 90 seconds. *)
Lemma SetDuration_roundtrip_witness :
  let st := {| times := [100000000000; 160000000000]; arrays := [] |} in
  let e := set_Duration 60 (set_Stop (Some 1%nat)
             (set_Start (Some 0%nat) zero_TimeEntry)) in
  ∃ e1 st1 e2 st2,
    SetDuration 90 e st = Some (None, e1, st1) ∧
    SetStopTime (StopTime e1 st1) e1 st1 = Some (None, e2, st2) ∧
    Duration e2 = 90.
Proof.
  cbv zeta.
  destruct (SetDuration_roundtrip
              (set_Duration 60 (set_Stop (Some 1%nat)
                 (set_Start (Some 0%nat) zero_TimeEntry)))
              {| times := [100000000000; 160000000000]; arrays := [] |}
              90 100000000000)
    as (e1 & st1 & Hcall & _ & _ & (e2 & st2 & Hstop & Hd & _) & _).
  - done.
  - done.
  - lia.
  - by vm_compute.
  - exists e1, st1, e2, st2. split; [exact Hcall|].
    split; [exact Hstop|exact Hd].
Defined.

(** X23. [Copy] returns (for an entry whose pointers are into the store)
    an entry that reads like the original: the same start and stop time,
    the same tags in the same order, the same duration and other fields.
    It changes no instant and no existing array of the store. *)
Theorem Copy_reads_alike (e : TimeEntry) (st : store) :
  wf_slice st (Tags e) →
  (∀ a, s_ptr (Tags e) = Some a → (a < length (arrays st))%nat) →
  (∀ l, Start e = Some l → (l < length (times st))%nat) →
  (∀ l, Stop e = Some l → (l < length (times st))%nat) →
  ∃ c st1,
    Copy e st = Some (c, st1) ∧
    c = set_Tags (Tags c) e ∧
    tags_of c st1 = tags_of e st ∧
    StartTime c st1 = StartTime e st ∧
    StopTime c st1 = StopTime e st ∧
    times st1 = times st ∧
    (∀ a arr, arrays st !! a = Some arr → arrays st1 !! a = Some arr).
Proof.
  intros Hwf Hvalid Hstart Hstop.
  assert (Hcopy : is_Some (Copy e st)).
  { unfold Copy. cbv zeta. simpl.
    destruct (Start e) as [l|] eqn:Hl; simpl.
    - destruct (lookup_lt_is_Some_2 (times st) l (Hstart l eq_refl))
        as [v Hv].
      rewrite Hv. simpl.
      destruct (Stop e) as [q|] eqn:Hq; simpl; [|by eexists].
      destruct (lookup_lt_is_Some_2 (times st) q (Hstop q eq_refl))
        as [u Hu].
      destruct (decide (l = q)) as [->|Hne].
      + rewrite list_lookup_insert_eq by (by apply Hstart). simpl.
        by eexists.
      + rewrite list_lookup_insert_ne by done. rewrite Hu. simpl.
        by eexists.
    - destruct (Stop e) as [q|] eqn:Hq; simpl; [|by eexists].
      destruct (lookup_lt_is_Some_2 (times st) q (Hstop q eq_refl))
        as [u Hu].
      rewrite Hu. simpl. by eexists. }
  destruct Hcopy as [[c st1] Hcopy]. exists c, st1. split; [done|].
  destruct (Copy_tags_fresh e st c st1 Hwf Hvalid Hcopy)
    as (_ & _ & Htags & _).
  destruct (Copy_inv e st c st1 Hcopy) as [Hc Hst1].
  split; [by rewrite Hc|]. split; [done|].
  assert (Htimes : times st1 = times st) by (by rewrite Hst1).
  unfold StartTime, StopTime. rewrite Htimes, Hc. simpl.
  split; [done|]. split; [done|]. split; [done|].
  intros a arr Ha. rewrite Hst1. unfold copy_strings, write_array. simpl.
  pose proof (lookup_lt_Some _ _ _ Ha) as Hlt.
  rewrite list_lookup_alter_ne by lia.
  by apply lookup_app_l_Some.
Qed.

(** X23, at work. *)
Lemma Copy_reads_alike_witness :
  let st := {| times := [100000000000; 160000000000];
               arrays := [["a"%string]] |} in
  let e := set_Duration 60
             (set_Tags {| s_ptr := Some 0%nat; s_off := 0; s_len := 1;
                          s_cap := 1 |}
                (set_Stop (Some 1%nat)
                   (set_Start (Some 0%nat) zero_TimeEntry))) in
  ∃ c st1, Copy e st = Some (c, st1) ∧ tags_of c st1 = ["a"%string] ∧
           StartTime c st1 = 100000000000.
Proof.
  cbv zeta.
  destruct (Copy_reads_alike
              (set_Duration 60
                 (set_Tags {| s_ptr := Some 0%nat; s_off := 0; s_len := 1;
                              s_cap := 1 |}
                    (set_Stop (Some 1%nat)
                       (set_Start (Some 0%nat) zero_TimeEntry))))
              {| times := [100000000000; 160000000000];
                 arrays := [["a"%string]] |})
    as (c & st1 & Hcopy & _ & Htags & Hstart & _).
  - split; simpl; lia.
  - intros a [= <-]. simpl. lia.
  - intros l [= <-]. simpl. lia.
  - intros l [= <-]. simpl. lia.
  - exists c, st1. split; [exact Hcopy|]. split; [exact Htags|exact Hstart].
Defined.

(** Reading [len] cells back from [off] after [vs] was written further
    in, over the cells up to the last of the [len]. *)
Lemma write_read_old (old vs : list string) (off i len : nat) :
  (off + len ≤ length old)%nat → (i + length vs + 1 = len)%nat →
  take len (drop off (take (off + i) old ++ vs ++
                      drop (off + i + length vs) old))
  = take i (drop off old) ++ vs ++ take 1 (drop (off + (len - 1)) old).
Proof.
  intros Hle Hlen.
  rewrite drop_app_le by (rewrite length_take; lia).
  rewrite <- take_drop_commute.
  rewrite take_app_ge by (rewrite length_take, length_drop; lia).
  rewrite length_take, length_drop.
  rewrite take_app_ge by lia.
  f_equal. f_equal. f_equal; [lia|f_equal; lia].
Qed.

(** X24. [RemoveTag] works in the backing array of the slice, shifting
    the later tags one place down, and never moves to a new array. An
    alias of the entry taken before the call (a struct copy, which shares
    the array and keeps the old length) therefore reads, after the call,
    the tags without the removed occurrence followed by the last tag a
    second time. *)
Theorem RemoveTag_in_place (g : nat → nat → nat) (e x : TimeEntry)
    (st : store) (t : string) :
  wf_slice st (Tags e) →
  Tags x = Tags e →
  t ∈ tags_of e st →
  ∃ (i : nat) e' st',
    RemoveTag g t e st = Some (e', st') ∧
    tags_of e st !! i = Some t ∧
    s_ptr (Tags e') = s_ptr (Tags e) ∧
    length (arrays st') = length (arrays st) ∧
    tags_of e' st' = take i (tags_of e st) ++ drop (S i) (tags_of e st) ∧
    tags_of x st' =
      take i (tags_of e st) ++ drop (S i) (tags_of e st) ++
      drop (length (tags_of e st) - 1) (tags_of e st).
Proof.
  intros Hwf Hx Hin.
  destruct (indexOfTag_spec t (tags_of e st))
    as [[Hnot _]|(i & Hidx & Hi & _)]; [done|].
  pose proof (slice_val_length st (Tags e) Hwf) as Hvl.
  pose proof (lookup_lt_Some _ _ _ Hi) as Hlt. unfold tags_of in *.
  rewrite Hvl in Hlt. destruct Hwf as [Hlen Hcap].
  exists i. unfold RemoveTag. cbv zeta. rewrite Hidx.
  assert ((Z.of_nat i =? -1) = false) as -> by (apply Z.eqb_neq; lia).
  simpl negb. cbv iota.
  replace (Z.to_nat (Z.of_nat i + 1)) with (S i) by lia.
  rewrite Nat2Z.id. unfold slice_to, slice_from.
  assert ((i <=? s_cap (Tags e))%nat = true) as ->
    by (apply Nat.leb_le; lia).
  assert ((S i <=? s_len (Tags e))%nat = true) as ->
    by (apply Nat.leb_le; lia).
  simpl. unfold append. cbv zeta. simpl.
  set (back := {| s_ptr := s_ptr (Tags e);
                  s_off := (s_off (Tags e) + S i)%nat;
                  s_len := (s_len (Tags e) - S i)%nat;
                  s_cap := (s_cap (Tags e) - S i)%nat |}).
  assert (Hback : slice_val st back = drop (S i) (slice_val st (Tags e))).
  { unfold slice_val, back, array_of; simpl.
    rewrite <- drop_drop, take_drop_commute. do 2 f_equal. lia. }
  assert (Hbl : length (slice_val st back) = (s_len (Tags e) - S i)%nat)
    by (rewrite Hback, length_drop; lia).
  assert ((i + length (slice_val st back) <=? s_cap (Tags e))%nat = true)
    as -> by (apply Nat.leb_le; lia).
  do 2 eexists. split; [done|]. simpl. split; [done|]. split; [done|].
  unfold array_of in Hcap.
  destruct (s_ptr (Tags e)) as [a|] eqn:Ha; simpl in Hcap; [|lia].
  destruct (arrays st !! a) as [old|] eqn:Hold; simpl in Hcap; [|lia].
  unfold write_array. simpl. split; [by rewrite length_alter|].
  assert (Hfront :
    take i (drop (s_off (Tags e)) old) = take i (slice_val st (Tags e))).
  { unfold slice_val, array_of. rewrite Ha, Hold. simpl.
    rewrite take_take. f_equal. lia. }
  split.
  - unfold slice_val at 1. unfold array_of. simpl.
    rewrite list_lookup_alter_eq, Hold. simpl.
    rewrite write_read by lia. by rewrite Hfront, Hback.
  - unfold slice_val at 1. unfold array_of. rewrite Hx, Ha. simpl.
    rewrite list_lookup_alter_eq, Hold. simpl.
    rewrite write_read_old by lia.
    rewrite Hfront, Hback. do 2 f_equal.
    rewrite Hvl. unfold slice_val, array_of. rewrite Ha, Hold. simpl.
    rewrite <- drop_drop, take_drop_commute. do 2 f_equal. lia.
Qed.

(** X24, at work: "a" is removed from "a", "b", "c"; the alias then reads
    "b", "c", "c". *)
Lemma RemoveTag_in_place_witness :
  let g := λ _ n : nat, (2 * n)%nat in
  let st := {| times := []; arrays := [["a"; "b"; "c"]%string] |} in
  let e := set_Tags {| s_ptr := Some 0%nat; s_off := 0; s_len := 3;
                       s_cap := 3 |} zero_TimeEntry in
  ∃ e' st', RemoveTag g "a" e st = Some (e', st') ∧
            tags_of e' st' = ["b"; "c"]%string ∧
            tags_of e st' = ["b"; "c"; "c"]%string.
Proof.
  cbv zeta.
  destruct (RemoveTag_in_place (λ _ n : nat, (2 * n)%nat)
              (set_Tags {| s_ptr := Some 0%nat; s_off := 0; s_len := 3;
                           s_cap := 3 |} zero_TimeEntry)
              (set_Tags {| s_ptr := Some 0%nat; s_off := 0; s_len := 3;
                           s_cap := 3 |} zero_TimeEntry)
              {| times := []; arrays := [["a"; "b"; "c"]%string] |} "a")
    as (i & e' & st' & Hrm & Hi & _ & _ & Hnew & Hold).
  - split; simpl; lia.
  - done.
  - apply (bool_decide_unpack _). by vm_compute.
  - assert (i = 0%nat) as ->.
    { destruct i as [|[|[|i]]]; by vm_compute in Hi. }
    exists e', st'. split; [exact Hrm|]. split; [exact Hnew|exact Hold].
Defined.

(** *** Sessions *)

Section SessionLaws.

Context {W : Type}.
Variable request : call → store → W → (string + string) * W.
Variable unmarshal : string → store → (string + TimeEntry) * store.
Variable local_day : Z → string.

Lemma handleTimeEntryResponse_error r st entry err st' :
  handleTimeEntryResponse unmarshal r st = (entry, Some err, st') →
  entry = zero_TimeEntry.
Proof.
  unfold handleTimeEntryResponse. destruct r as [e|data].
  - by intros [= <- _ _].
  - destruct (unmarshal data st) as [[e|x] st2]; [|done].
    by intros [= <- _ _].
Qed.

Lemma startTimeEntry_shape entry st w x err st' w' :
  startTimeEntry request unmarshal entry st w = (x, err, st', w') →
  (err ≠ None → x = zero_TimeEntry) ∧
  sent w' = sent w ++ [PostTimeEntry (create.WorkspaceId entry) entry].
Proof.
  unfold startTimeEntry, send.
  destruct (request _ st (remote w)) as [r s1].
  destruct (handleTimeEntryResponse unmarshal r st) as [[x0 err0] st0] eqn:Hh.
  intros [= <- <- <- <-]. split; [|done].
  destruct err0 as [msg|]; [|done]. intros _.
  by eapply handleTimeEntryResponse_error.
Qed.

(** X19. [StartTimeEntry] sends one request, the creation in the given
    workspace of a running entry (duration -1) that starts at the clock
    reading, with the description and with no project, task, tags or
    stop, not billable; its result is the decoded answer.
    [StartTimeEntryForProject] sends the same entry with the project set
    and with the billable flag given, or not billable when none is
    given. *)
Theorem StartTimeEntry_request (now : Z) (description : string)
    (wid projectID : Z) (billable : option bool) (st : store) (w : world W) :
  ∃ p st1,
    deref st1 (Some p) = Some now ∧
    (∀ l t, times st !! l = Some t → times st1 !! l = Some t) ∧
    arrays st1 = arrays st ∧
    let entry b pid :=
      {| create.Billable := b; create.Description := description;
         create.Duration := -1; create.ProjectID := pid;
         create.TaskID := None; create.Start := Some p;
         create.Stop := None; create.Tags := nil_slice;
         create.WorkspaceId := wid |} in
    let result b pid :=
      let r := request (PostTimeEntry wid (entry b pid)) st1 (remote w) in
      (handleTimeEntryResponse unmarshal r.1 st1,
       {| remote := r.2;
          sent := sent w ++ [PostTimeEntry wid (entry b pid)] |}) in
    StartTimeEntry request unmarshal now description wid st w
      = result false None ∧
    StartTimeEntryForProject request unmarshal now description wid
      projectID billable st w
      = result (default false billable) (Some projectID).
Proof.
  exists (length (times st)), (new_time now st).2.
  split; [by apply list_lookup_middle|].
  split; [intros l t H; by apply lookup_app_l_Some|].
  split; [done|]. cbv zeta.
  unfold StartTimeEntry, StartTimeEntryForProject, startTimeEntry, send.
  simpl. split.
  - by destruct (request _ _ _).
  - destruct billable as [b|]; simpl; by destruct (request _ _ _).
Qed.

(** X20. [ContinueTimeEntry] deletes nothing unless it is asked for a
    duration-only continuation of an entry that started today. In that
    one case it is [UnstopTimeEntry]. With [duronly] off, or with the
    entry started on another day, it sends one request, the creation of a
    running entry with the metadata of [timer] and a start at the clock
    reading, and the old entry is left alone. With [duronly] on and no
    start instant in [timer] it panics. *)
Theorem ContinueTimeEntry_cases (now0 now : Z) (timer : TimeEntry)
    (duronly : bool) (st : store) (w : world W) :
  (duronly = true → Start timer = None →
     ContinueTimeEntry request unmarshal local_day now0 now timer duronly
       st w = None) ∧
  (duronly = true → ∀ t0, deref st (Start timer) = Some t0 →
     local_day now0 = local_day t0 →
     ContinueTimeEntry request unmarshal local_day now0 now timer duronly
       st w
     = Some (UnstopTimeEntry request unmarshal now timer st w)) ∧
  (duronly = false ∨
   (∃ t0, deref st (Start timer) = Some t0 ∧
          local_day now0 ≠ local_day t0) →
     ∃ p st1,
       deref st1 (Some p) = Some now ∧
       let entry :=
         {| create.Billable := Billable timer;
            create.Description := Description timer;
            create.Duration := -1; create.ProjectID := Pid timer;
            create.TaskID := Tid timer; create.Start := Some p;
            create.Stop := None; create.Tags := Tags timer;
            create.WorkspaceId := Wid timer |} in
       let r := request (PostTimeEntry (Wid timer) entry) st1 (remote w) in
       ContinueTimeEntry request unmarshal local_day now0 now timer duronly
         st w
       = Some (handleTimeEntryResponse unmarshal r.1 st1,
               {| remote := r.2;
                  sent := sent w ++ [PostTimeEntry (Wid timer) entry] |})).
Proof.
  split; [|split].
  - intros -> Hnil. unfold ContinueTimeEntry. by rewrite Hnil.
  - intros -> t0 Ht0 Hday. unfold ContinueTimeEntry. rewrite Ht0. simpl.
    by rewrite (proj2 (String.eqb_eq _ _) Hday).
  - intros Hnew.
    exists (length (times st)), (new_time now st).2.
    split; [by apply list_lookup_middle|]. cbv zeta.
    assert (Htoday :
      (if duronly then
         deref st (Start timer) ≫= λ start,
           Some (String.eqb (local_day now0) (local_day start))
       else Some false) = Some false).
    { destruct Hnew as [->|(t0 & Ht0 & Hday)]; [done|].
      destruct duronly; [|done]. rewrite Ht0. simpl.
      by rewrite (proj2 (String.eqb_neq _ _) Hday). }
    unfold ContinueTimeEntry. rewrite Htoday. simpl.
    unfold startTimeEntry, send. simpl. by destruct (request _ _ _).
Qed.

(** X21. An error never comes with an entry: whenever [StartTimeEntry],
    [StartTimeEntryForProject], [UnstopTimeEntry] or [ContinueTimeEntry]
    returns an error, the entry returned with it is [TimeEntry{}]. And
    each call sends at least the creation request and at most one request
    more, the requests sent before staying on record. *)
Theorem error_comes_with_zero_entry (now0 now : Z) (description : string)
    (wid projectID : Z) (billable : option bool) (timer : TimeEntry)
    (duronly : bool) (st : store) (w : world W) :
  let ok (res : TimeEntry * option string * store * world W) :=
    (res.1.1.2 ≠ None → res.1.1.1 = zero_TimeEntry) ∧
    ∃ c more, sent res.2 = sent w ++ c :: more ∧
              (length more ≤ 1)%nat ∧
              (∃ wid' body, c = PostTimeEntry wid' body) in
  ok (StartTimeEntry request unmarshal now description wid st w) ∧
  ok (StartTimeEntryForProject request unmarshal now description wid
        projectID billable st w) ∧
  ok (UnstopTimeEntry request unmarshal now timer st w) ∧
  (∀ res,
     ContinueTimeEntry request unmarshal local_day now0 now timer duronly
       st w = Some res → ok res).
Proof.
  cbv zeta.
  assert (Hstart : ∀ entry st0 res,
            startTimeEntry request unmarshal entry st0 w = res →
            (res.1.1.2 ≠ None → res.1.1.1 = zero_TimeEntry) ∧
            ∃ c more, sent res.2 = sent w ++ c :: more ∧
                      (length more ≤ 1)%nat ∧
                      (∃ wid' body, c = PostTimeEntry wid' body)).
  { intros entry st0 [[[x err] st'] w'] Hres.
    destruct (startTimeEntry_shape _ _ _ _ _ _ _ Hres) as [Hz Hsent].
    split; [done|]. exists (PostTimeEntry (create.WorkspaceId entry) entry), [].
    split; [done|]. split; [simpl; lia|by eexists _, _]. }
  assert (Hunstop :
    (let res := UnstopTimeEntry request unmarshal now timer st w in
     (res.1.1.2 ≠ None → res.1.1.1 = zero_TimeEntry) ∧
     ∃ c more, sent res.2 = sent w ++ c :: more ∧
               (length more ≤ 1)%nat ∧
               (∃ wid' body, c = PostTimeEntry wid' body))).
  { cbv zeta. unfold UnstopTimeEntry. simpl.
    match goal with
    | |- context [startTimeEntry request unmarshal ?en ?s0 w] =>
        destruct (startTimeEntry request unmarshal en s0 w)
          as [[[x err] st'] w'] eqn:Hres
    end.
    destruct (startTimeEntry_shape _ _ _ _ _ _ _ Hres) as [Hz Hsent].
    destruct err as [msg|]; simpl.
    - split; [done|]. rewrite Hsent. eexists _, []. split; [done|].
      split; [simpl; lia|by eexists _, _].
    - unfold DeleteTimeEntry, send.
      destruct (request _ st' (remote w')) as [[msg|data] s2]; simpl;
        (split; [done|]); rewrite Hsent, <- app_assoc; simpl;
        eexists _, [_]; (split; [done|]);
        (split; [simpl; lia|by eexists _, _]). }
  split; [|split; [|split]].
  - unfold StartTimeEntry. simpl. by eapply Hstart.
  - unfold StartTimeEntryForProject. simpl.
    destruct billable; by eapply Hstart.
  - exact Hunstop.
  - intros res. unfold ContinueTimeEntry.
    destruct (if duronly then _ else _) as [[|]|]; simpl; [| |done].
    + by intros [= <-].
    + intros [= <-]. by eapply Hstart.
Qed.

End SessionLaws.

(** X19, at work. *)
Lemma StartTimeEntry_request_witness :
  ∃ res,
    StartTimeEntry demo_request demo_unmarshal 700 "write" 3
      {| times := []; arrays := [] |} {| remote := 0%nat; sent := [] |}
    = (set_Duration (-1) zero_TimeEntry, None, res.1, res.2) ∧
    length (sent res.2) = 1%nat.
Proof.
  destruct (StartTimeEntry_request demo_request demo_unmarshal 700 "write"
              3 4 None {| times := []; arrays := [] |}
              {| remote := 0%nat; sent := [] |})
    as (p & st1 & _ & _ & _ & Hstart & _).
  rewrite Hstart. by eexists (_, _).
Defined.

(** X20, at work: a duration-only continuation of an entry started
    yesterday creates a new entry and deletes nothing. *)
Lemma ContinueTimeEntry_cases_witness :
  let st := {| times := [3600000000000]; arrays := [] |} in
  let timer := set_Duration 60 (set_Start (Some 0%nat) zero_TimeEntry) in
  ∃ res,
    ContinueTimeEntry demo_request demo_unmarshal demo_day
      90000000000000 90000000000001 timer true st
      {| remote := 0%nat; sent := [] |} = Some res ∧
    length (sent res.2) = 1%nat.
Proof.
  cbv zeta.
  destruct (ContinueTimeEntry_cases demo_request demo_unmarshal demo_day
              90000000000000 90000000000001
              (set_Duration 60 (set_Start (Some 0%nat) zero_TimeEntry)) true
              {| times := [3600000000000]; arrays := [] |}
              {| remote := 0%nat; sent := [] |})
    as (_ & _ & Hnew).
  destruct Hnew as (p & st1 & _ & Hcall).
  { right. exists 3600000000000. split; [done|]. by vm_compute. }
  rewrite Hcall. by eexists.
Defined.

(** X21, at work: the deletion is refused after the creation went
    through. *)
Lemma error_comes_with_zero_entry_witness :
  let st := {| times := [100000000000]; arrays := [] |} in
  let timer := set_Duration 60 (set_Start (Some 0%nat) zero_TimeEntry) in
  (UnstopTimeEntry demo_request demo_unmarshal 700000000000 timer st
     {| remote := 0%nat; sent := [] |}).1.1.1 = zero_TimeEntry.
Proof.
  cbv zeta.
  destruct (error_comes_with_zero_entry demo_request demo_unmarshal demo_day
              0 700000000000 "" 0 0 None
              (set_Duration 60 (set_Start (Some 0%nat) zero_TimeEntry)) false
              {| times := [100000000000]; arrays := [] |}
              {| remote := 0%nat; sent := [] |})
    as (_ & _ & [Hzero _] & _).
  apply Hzero. by vm_compute.
Defined.

End toggl_laws.
